(** * mod_authz: the authorization front end of httpd

    A shallow embedding of [modules/aaa/mod_authz.c].  The per-directory
    configuration holds a singly linked list of provider bindings, built by
    the [Require] directive and walked once per request by [authorize_user].

    - C structs are records, the [next]-linked list is a Rocq [list] whose
      tail is the [next] pointer ([[]] is [NULL]);
    - [apr_int64_t] is [Z], with the wrap-around of the shift written out;
    - [r->notes] is a finite map from strings to strings;
    - a provider's [check_authorization] is a function on the state of the
      server that it may read and change, a [NULL] function pointer is [None];
    - reading through a [NULL] pointer ends the run in [Crash]. *)

From Stdlib Require Import ZArith Lia.
From stdpp Require Import gmap strings list.

Local Open Scope Z_scope.

(** ** Data of the host server used by the module *)

(** Modelled from the spec: the verdict of a provider is a "tri-state
    enumeration {Granted, Denied, Error}".  This is [authz_status], which
    mod_auth.h declares. *)
Inductive authz_status : Type :=
| AUTHZ_DENIED
| AUTHZ_GRANTED
| AUTHZ_GENERAL_ERROR.

Global Instance authz_status_eq_dec : EqDecision authz_status.
Proof. solve_decision. Defined.

(** Modelled from the spec: the request "carries identity (possibly
    absent), HTTP method, resource path, and a single mutable diagnostic
    slot".  These are the fields of [request_rec] that the module reads or
    writes; [user] is [None] when [r->user] is [NULL]. *)
Record request_rec : Type := mk_request {
  user : option string;
  uri : string;
  method_number : Z;
  notes : gmap string string
}.

(** Modelled from the spec: the outcomes Continue, ChallengeAndDeny and
    ServerError.  These are the return codes [OK], [HTTP_UNAUTHORIZED] and
    [HTTP_INTERNAL_SERVER_ERROR] of httpd.h. *)
Definition OK : Z := 0.
Definition HTTP_UNAUTHORIZED : Z := 401.
Definition HTTP_INTERNAL_SERVER_ERROR : Z := 500.

(** Modelled from the spec: a mask is a "bitset over HTTP methods".
    [AP_METHOD_BIT] of httpd.h is the bit of method 0,
    [((apr_int64_t)1)]. *)
Definition AP_METHOD_BIT : Z := 1.

(** Two's complement wrap-around of a 64 bit signed integer. *)
Definition wrap_int64 (z : Z) : Z :=
  (z + 2 ^ 63) mod 2 ^ 64 - 2 ^ 63.

(** The values of [apr_int64_t]. *)
Definition is_int64 (z : Z) : Prop := - 2 ^ 63 <= z < 2 ^ 63.

(** [x << n] on [apr_int64_t]. *)
Definition int64_shl (x n : Z) : Z := wrap_int64 (Z.shiftl x n).

(** The double quote character, for the log messages. *)
Definition dquote : string := String (Ascii.ascii_of_nat 34) EmptyString.

(** What [%s] prints for a string that may be [NULL]. *)
Definition fmt_s (s : option string) : string := default "(null)"%string s.

Section Authz.

(** State outside the request that providers consult (password files,
    group databases, ...). *)
Context {backend : Type}.

(** The names that mod_auth.h defines: the group the providers are
    registered in, the name of the default provider, and the key of the
    diagnostic note. *)
Variable AUTHZ_PROVIDER_GROUP : string.
Variable AUTHZ_DEFAULT_PROVIDER : string.
Variable AUTHZ_PROVIDER_NAME_NOTE : string.

(** Everything a provider or the module can change while one request is
    served: the request, the error log, the number of authentication
    challenges noted on the response, and the providers' own state. *)
Record world : Type := mk_world {
  req : request_rec;
  error_log : list string;
  challenges : nat;
  ext : backend
}.

Definition set_notes (n : gmap string string) (w : world) : world :=
  {| req := {| user := user (req w); uri := uri (req w);
               method_number := method_number (req w); notes := n |};
     error_log := error_log w; challenges := challenges w; ext := ext w |}.

(** Modelled from the spec: the "single mutable diagnostic slot" of the
    request context is an entry of [r->notes]; [apr_table_setn]
    overwrites it. *)
Definition apr_table_setn (k v : string) (w : world) : world :=
  set_notes (<[k := v]> (notes (req w))) w.

(** Modelled from the spec: [apr_table_unset] clears the slot. *)
Definition apr_table_unset (k : string) (w : world) : world :=
  set_notes (delete k (notes (req w))) w.

(** Modelled from the spec: [ap_log_rerror] appends one entry to the
    error log. *)
Definition ap_log_rerror (msg : string) (w : world) : world :=
  {| req := req w; error_log := error_log w ++ [msg];
     challenges := challenges w; ext := ext w |}.

(** Modelled from the spec: [ap_note_basic_auth_failure] issues the
    authentication challenge; the model counts the challenges issued. *)
Definition ap_note_basic_auth_failure (w : world) : world :=
  {| req := req w; error_log := error_log w;
     challenges := S (challenges w); ext := ext w |}.

(** Modelled from the spec: a provider has one call surface,
    "checkAuthorization(context, methodMask, requirement) -> Verdict".
    This is [authz_provider] of mod_auth.h: one function pointer, which
    may be [NULL]; the function may read and change the state. *)
Definition check_fn : Type := world -> Z -> string -> authz_status * world.

Record authz_provider : Type := mk_provider {
  check_authorization : option check_fn
}.

(** Modelled from the spec: a binding is "{ providerName, requirement,
    methodMask, provider }".  This is one node of [authz_provider_list];
    [next] is the tail of the Rocq list the node stands in.  A node is only
    linked after its provider was looked up successfully, so [provider] is
    never [NULL] here. *)
Record authz_provider_list : Type := mk_node {
  provider_name : string;
  provider : authz_provider;
  method_mask : Z;
  requirement : string
}.

(** One entry of the [ap_requires] array. *)
Record require_line : Type := mk_require {
  rl_method_mask : Z;
  rl_requirement : string
}.

Record authz_dir_conf : Type := mk_conf {
  ap_requires : option (list require_line);
  providers : list authz_provider_list
}.

(** Modelled from the spec: the registry "maps a provider name to an
    object"; [ap_lookup_provider] takes the group, the name and the
    version. *)
Definition ap_lookup_provider (reg : gmap (string * string * string) authz_provider)
    (group name version : string) : option authz_provider :=
  reg !! (group, name, version).

(** Modelled from the spec: "the enclosing method restriction becomes the
    binding's methodMask".  This is [cmd->limited], the part of [cmd_parms]
    that the handler reads. *)
Record cmd_parms : Type := mk_cmd {
  limited : Z
}.

(** ** create_authz_dir_config *)

(** [apr_pcalloc] zeroes the structure: both pointers are [NULL]. *)
Definition create_authz_dir_config : authz_dir_conf :=
  {| ap_requires := None; providers := [] |}.

(** ** merge_authz_dir_config *)

Definition merge_authz_dir_config (base new : authz_dir_conf) : authz_dir_conf :=
  (* memcpy(conf, base, sizeof(authz_dir_conf)) *)
  let conf := base in
  match ap_requires new with
  | Some _ => {| ap_requires := ap_requires new; providers := providers conf |}
  | None => conf
  end.

(** ** add_authz_provider *)

(** The walk to the last node, [while (last->next) last = last->next;]
    followed by [last->next = newp]. *)
Fixpoint link_last (last : list authz_provider_list) (newp : authz_provider_list)
    : list authz_provider_list :=
  match last with
  | [] => [newp]
  | n :: next =>
      match next with
      | [] => [n; newp]
      | _ :: _ => n :: link_last next newp
      end
  end.

Definition unknown_provider_msg (name : string) : string :=
  "Unknown Authz provider: " +:+ name.

Definition unsupported_provider_msg (name : string) : string :=
  "The '" +:+ name +:+ "' Authz provider is not supported by any "
    +:+ "of the loaded authorization modules ".

(** The handler of [Require].  The result is the error message ([None]
    is the [NULL] of success) and the configuration after the call. *)
Definition add_authz_provider (reg : gmap (string * string * string) authz_provider)
    (cmd : cmd_parms) (conf : authz_dir_conf) (arg : string)
    : option string * authz_dir_conf :=
  let newp_provider_name := arg in
  let newp_requirement := arg in
  let newp_method_mask := limited cmd in
  match ap_lookup_provider reg AUTHZ_PROVIDER_GROUP newp_provider_name "0" with
  | None => (Some (unknown_provider_msg newp_provider_name), conf)
  | Some p =>
      match check_authorization p with
      | None => (Some (unsupported_provider_msg newp_provider_name), conf)
      | Some _ =>
          let newp := {| provider_name := newp_provider_name; provider := p;
                         method_mask := newp_method_mask;
                         requirement := newp_requirement |} in
          (None,
           {| ap_requires := ap_requires conf;
              providers := match providers conf with
                           | [] => [newp]
                           | _ :: _ => link_last (providers conf) newp
                           end |})
      end
  end.

(** ** authorize_user *)

(** One call of a provider as the run saw it: the callee and the arguments
    passed, the state the provider was entered in, its verdict, and the
    state right after the [apr_table_unset] that follows the call. *)
Record invocation : Type := mk_invocation {
  inv_callee : authz_provider;
  inv_mask : Z;
  inv_requirement : string;
  inv_entry : world;
  inv_verdict : authz_status;
  inv_exit : world
}.

(** A run either returns a value, or stops at a read through [NULL]; both
    carry the state reached and the provider calls made so far. *)
Inductive result (A : Type) : Type :=
| Done (a : A) (w : world) (calls : list invocation)
| Crash (w : world) (calls : list invocation).

Arguments Done {A} a w calls.
Arguments Crash {A} w calls.

Definition no_default_msg : string := "No default authz provider configured".

(** The body of the [do { ... } while] up to the test [!conf->providers];
    the boolean tells whether a [break] left the loop. *)
Definition loop_body (reg : gmap (string * string * string) authz_provider)
    (conf : authz_dir_conf) (current_provider : list authz_provider_list)
    (w : world) (calls : list invocation) : result (authz_status * bool) :=
  let selected : world + authz_provider * world :=
    match current_provider with
    | [] =>
        match ap_lookup_provider reg AUTHZ_PROVIDER_GROUP AUTHZ_DEFAULT_PROVIDER "0" with
        | None => inl (ap_log_rerror no_default_msg w)
        | Some provider =>
            match check_authorization provider with
            | None => inl (ap_log_rerror no_default_msg w)
            | Some _ =>
                inr (provider,
                     apr_table_setn AUTHZ_PROVIDER_NAME_NOTE AUTHZ_DEFAULT_PROVIDER w)
            end
        end
    | cur :: _ =>
        inr (provider cur,
             apr_table_setn AUTHZ_PROVIDER_NAME_NOTE (provider_name cur) w)
    end in
  match selected with
  | inl w_err => Done (AUTHZ_GENERAL_ERROR, true) w_err calls
  | inr (provider, w_set) =>
      (* provider->check_authorization(r, current_provider->method_mask,
                                       current_provider->requirement) *)
      match head current_provider with
      | None => Crash w_set calls
      | Some cur =>
          match check_authorization provider with
          | None => Crash w_set calls
          | Some check =>
              let '(auth_result, w_ret) :=
                check w_set (method_mask cur) (requirement cur) in
              let w_unset := apr_table_unset AUTHZ_PROVIDER_NAME_NOTE w_ret in
              let calls' :=
                calls ++ [ {| inv_callee := provider;
                              inv_mask := method_mask cur;
                              inv_requirement := requirement cur;
                              inv_entry := w_set;
                              inv_verdict := auth_result;
                              inv_exit := w_unset |} ] in
              if decide (auth_result <> AUTHZ_DENIED)
              then Done (auth_result, true) w_unset calls'
              else
                match providers conf with
                | [] => Done (auth_result, true) w_unset calls'
                | _ :: _ => Done (auth_result, false) w_unset calls'
                end
          end
      end
  end.

(** The loop: after a body that did not [break],
    [current_provider = current_provider->next] and the test
    [while (current_provider)]. *)
Fixpoint do_while (reg : gmap (string * string * string) authz_provider)
    (conf : authz_dir_conf) (current_provider : list authz_provider_list)
    (w : world) (calls : list invocation) {struct current_provider}
    : result authz_status :=
  match loop_body reg conf current_provider w calls with
  | Crash w' calls' => Crash w' calls'
  | Done (auth_result, true) w' calls' => Done auth_result w' calls'
  | Done (auth_result, false) w' calls' =>
      match current_provider with
      | [] => Crash w' calls'
      | _ :: next =>
          match next with
          | [] => Done auth_result w' calls'
          | _ :: _ => do_while reg conf next w' calls'
          end
      end
  end.

(** Lines 145 to 193: the verdict the loop leaves in [auth_result]. *)
Definition run_providers (reg : gmap (string * string * string) authz_provider)
    (conf : authz_dir_conf) (w : world) (calls : list invocation)
    : result authz_status :=
  do_while reg conf (providers conf) w calls.

Definition authz_failure_msg (r : request_rec) : string :=
  "user " +:+ fmt_s (user r) +:+ ": authorization failure for "
    +:+ dquote +:+ uri r +:+ dquote +:+ ": ".

(** Lines 195 to 222: from the verdict to the return code. *)
Definition map_auth_result (auth_result : authz_status) (w : world) : Z * world :=
  if decide (auth_result <> AUTHZ_GRANTED) then
    let '(return_code, w1) :=
      match auth_result with
      | AUTHZ_DENIED =>
          (HTTP_UNAUTHORIZED, ap_log_rerror (authz_failure_msg (req w)) w)
      | _ => (HTTP_INTERNAL_SERVER_ERROR, w)
      end in
    let w2 :=
      if return_code =? HTTP_UNAUTHORIZED
      then ap_note_basic_auth_failure w1
      else w1 in
    (return_code, w2)
  else (OK, w).

Definition authorize_user (reg : gmap (string * string * string) authz_provider)
    (conf : authz_dir_conf) (w : world) (calls : list invocation) : result Z :=
  match run_providers reg conf w calls with
  | Crash w' calls' => Crash w' calls'
  | Done auth_result w' calls' =>
      let '(return_code, w'') := map_auth_result auth_result w' in
      Done return_code w'' calls'
  end.

(** ** authz_ap_requires *)

Definition authz_ap_requires (conf : authz_dir_conf) : option (list require_line) :=
  ap_requires conf.

(** ** authz_some_auth_required *)

Fixpoint some_auth_loop (current_provider : list authz_provider_list)
    (r : request_rec) : Z :=
  match current_provider with
  | [] => 0
  | cur :: next =>
      if Z.land (method_mask cur) (int64_shl AP_METHOD_BIT (method_number r)) =? 0
      then some_auth_loop next r
      else 1
  end.

(** The function makes no call: the state and the provider calls made so
    far come back as they were. *)
Definition authz_some_auth_required (conf : authz_dir_conf) (w : world)
    (calls : list invocation) : result Z :=
  Done (some_auth_loop (providers conf) (req w)) w calls.

(** ** The module record *)

(** The slots of [authz_module] that concern the per-directory
    configuration.  The merger slot is [NULL]: the host then lets the
    configuration of the inner scope override that of the outer one, and
    [merge_authz_dir_config] is not installed. *)
Record module_slots : Type := mk_module {
  create_dir_config : option authz_dir_conf;
  merge_dir_config : option (authz_dir_conf -> authz_dir_conf -> authz_dir_conf)
}.

Definition authz_module : module_slots :=
  {| create_dir_config := Some create_authz_dir_config;
     merge_dir_config := None |}.

(** ** Vocabulary of the statements *)

(** The provider calls a run ends with, and the value it returns. *)
Definition calls_of {A : Type} (r : result A) : list invocation :=
  match r with
  | Done _ _ calls => calls
  | Crash _ calls => calls
  end.

Definition value_of {A : Type} (r : result A) : option A :=
  match r with
  | Done a _ _ => Some a
  | Crash _ _ => None
  end.

(** The state a run ends in. *)
Definition state_of {A : Type} (r : result A) : world :=
  match r with
  | Done _ w _ => w
  | Crash w _ => w
  end.

(** The diagnostic slot of a state. *)
Definition slot (w : world) : option string :=
  notes (req w) !! AUTHZ_PROVIDER_NAME_NOTE.

(** A binding whose provider has the check capability. *)
Definition callable (b : authz_provider_list) : Prop :=
  is_Some (check_authorization (provider b)).

(** What a binding asks to be called, and what an invocation called. *)
Definition binding_call (b : authz_provider_list) : authz_provider * Z * string :=
  (provider b, method_mask b, requirement b).

Definition invocation_call (i : invocation) : authz_provider * Z * string :=
  (inv_callee i, inv_mask i, inv_requirement i).

Definition denied (i : invocation) : Prop := inv_verdict i = AUTHZ_DENIED.


(** The invocation that the call site builds for binding [b], reached in
    state [w], when the provider's function is [check]. *)
Definition invocation_at (b : authz_provider_list) (check : check_fn) (w : world)
    : invocation :=
  let w_set := apr_table_setn AUTHZ_PROVIDER_NAME_NOTE (provider_name b) w in
  let answer := check w_set (method_mask b) (requirement b) in
  {| inv_callee := provider b;
     inv_mask := method_mask b;
     inv_requirement := requirement b;
     inv_entry := w_set;
     inv_verdict := answer.1;
     inv_exit := apr_table_unset AUTHZ_PROVIDER_NAME_NOTE answer.2 |}.

(** The record [i] is the call of binding [b] made in state [w]: the
    provider of [b] has a function, and [i] holds what that function
    answered when applied, after the note was set to the name of [b], to
    the mask and the requirement of [b], with the state it left once the
    note was unset. *)
Definition honest_call (w : world) (b : authz_provider_list) (i : invocation)
    : Prop :=
  exists check,
    check_authorization (provider b) = Some check
    /\ inv_callee i = provider b
    /\ inv_mask i = method_mask b
    /\ inv_requirement i = requirement b
    /\ inv_entry i = apr_table_setn AUTHZ_PROVIDER_NAME_NOTE (provider_name b) w
    /\ inv_verdict i
       = (check (inv_entry i) (inv_mask i) (inv_requirement i)).1
    /\ inv_exit i
       = apr_table_unset AUTHZ_PROVIDER_NAME_NOTE
           (check (inv_entry i) (inv_mask i) (inv_requirement i)).2.

(** The records [invs] are the calls of the first bindings of [bs], made
    one after the other from state [w]: each call starts in the state the
    call before it left. *)
Fixpoint threaded (w : world) (bs : list authz_provider_list)
    (invs : list invocation) {struct invs} : Prop :=
  match invs with
  | [] => True
  | i :: invs' =>
      match bs with
      | [] => False
      | b :: bs' => honest_call w b i /\ threaded (inv_exit i) bs' invs'
      end
  end.

(** The method-applicability test of [authz_some_auth_required]. *)
Definition mask_includes (mask method : Z) : Prop := Z.testbit mask method = true.

(** ** Loading a scope *)

(** The configurations the functions of the module produce while the
    configuration file is read against the registry [reg]: a fresh
    configuration, a configuration after one more [Require] line whose
    method restriction is an [apr_int64_t], and a merge of two. *)
Inductive built (reg : gmap (string * string * string) authz_provider)
    : authz_dir_conf -> Prop :=
| built_create : built reg create_authz_dir_config
| built_add (cmd : cmd_parms) (conf : authz_dir_conf) (arg : string) :
    is_int64 (limited cmd) ->
    built reg conf ->
    built reg (add_authz_provider reg cmd conf arg).2
| built_merge (base new : authz_dir_conf) :
    built reg base -> built reg new ->
    built reg (merge_authz_dir_config base new).


(** Modelled from the spec: the merge of the configurations of nested
    scopes that the host makes for a module whose merger slot is [NULL]
    (the host's code is not part of this file): "child list present ⇒
    fully replaces parent's; child list empty ⇒ inherit parent's
    verbatim". *)
Definition default_override (base new : authz_dir_conf) : authz_dir_conf :=
  match providers new with
  | [] => base
  | _ :: _ => new
  end.

(** Modelled from the spec: the host merges with the merger of the module
    record when the slot holds one, and by the default override when the
    slot is [NULL]. *)
Definition merge_per_dir_config (m : module_slots) (base new : authz_dir_conf)
    : authz_dir_conf :=
  match merge_dir_config m with
  | Some merger => merger base new
  | None => default_override base new
  end.

(** Modelled from the spec: load-time faults are "fatal to activating a
    scope".  The [Require] lines of one scope are handled in the order of
    the file, and the first error message ends the load. *)
Fixpoint add_all (reg : gmap (string * string * string) authz_provider)
    (cmd : cmd_parms) (conf : authz_dir_conf) (args : list string)
    : option string * authz_dir_conf :=
  match args with
  | [] => (None, conf)
  | arg :: rest =>
      match add_authz_provider reg cmd conf arg with
      | (Some err, conf') => (Some err, conf')
      | (None, conf') => add_all reg cmd conf' rest
      end
  end.

(** A line that binds: its whole text names a provider that has
    [check_authorization]. *)
Definition resolves (reg : gmap (string * string * string) authz_provider)
    (arg : string) : Prop :=
  exists p, ap_lookup_provider reg AUTHZ_PROVIDER_GROUP arg "0" = Some p
            /\ is_Some (check_authorization p).

(** The binding that the line [arg] leaves in the list. *)
Definition bound_from (reg : gmap (string * string * string) authz_provider)
    (cmd : cmd_parms) (arg : string) (b : authz_provider_list) : Prop :=
  provider_name b = arg
  /\ requirement b = arg
  /\ method_mask b = limited cmd
  /\ ap_lookup_provider reg AUTHZ_PROVIDER_GROUP arg "0" = Some (provider b).

(** A binding as the load leaves it: its provider can be called and is
    the one the registry holds under the binding's name, the requirement
    is the name, and the mask is an [apr_int64_t]. *)
Definition resolved (reg : gmap (string * string * string) authz_provider)
    (b : authz_provider_list) : Prop :=
  callable b
  /\ ap_lookup_provider reg AUTHZ_PROVIDER_GROUP (provider_name b) "0"
     = Some (provider b)
  /\ requirement b = provider_name b
  /\ is_int64 (method_mask b).

(** A binding whose provider leaves the count of challenges alone. *)
Definition keeps_challenges (b : authz_provider_list) : Prop :=
  forall check, check_authorization (provider b) = Some check ->
  forall (w : world) (mask : Z) (require_line : string),
    challenges (check w mask require_line).2 = challenges w.

(** ** The words of the specification on the directive's argument *)

Definition is_blank (c : Ascii.ascii) : bool :=
  bool_decide (c = Ascii.ascii_of_nat 32) || bool_decide (c = Ascii.ascii_of_nat 9).

Fixpoint skip_blanks (s : string) : string :=
  match s with
  | String c rest => if is_blank c then skip_blanks rest else s
  | EmptyString => EmptyString
  end.

(** "whose first token is a provider name": the characters up to the first
    blank. *)
Fixpoint spec_first_token (s : string) : string :=
  match s with
  | String c rest => if is_blank c then EmptyString else String c (spec_first_token rest)
  | EmptyString => EmptyString
  end.

(** "and remainder is a free-form requirement string": what follows the
    first token and the blanks after it. *)
Fixpoint spec_remainder (s : string) : string :=
  match s with
  | String c rest => if is_blank c then skip_blanks rest else spec_remainder rest
  | EmptyString => EmptyString
  end.

(** ** Sample providers, bindings and requests *)

(** A provider that answers [v] and leaves its requirement in the error
    log, so that the order of the calls shows in the state. *)
Definition sample_check (v : authz_status) : check_fn :=
  fun w _ require_line => (v, ap_log_rerror require_line w).

Definition sample_provider (v : authz_status) : authz_provider :=
  {| check_authorization := Some (sample_check v) |}.

Definition incapable_provider : authz_provider :=
  {| check_authorization := None |}.

Definition sample_binding (name : string) (v : authz_status) (mask : Z)
    : authz_provider_list :=
  {| provider_name := name; provider := sample_provider v;
     method_mask := mask; requirement := name |}.

Definition sample_conf (bs : list authz_provider_list) : authz_dir_conf :=
  {| ap_requires := None; providers := bs |}.

Definition sample_world (e : backend) (method : Z) : world :=
  {| req := {| user := Some "alice"%string; uri := "/private"%string;
               method_number := method; notes := ∅ |};
     error_log := []; challenges := 0%nat; ext := e |}.

Definition registry_with (name : string) (p : authz_provider)
    : gmap (string * string * string) authz_provider :=
  {[ (AUTHZ_PROVIDER_GROUP, name, "0"%string) := p ]}.

(** A registry with a denying provider "user" and a granting provider
    "valid-user", and a [Require] line outside any method restriction. *)
Definition sample_registry : gmap (string * string * string) authz_provider :=
  <[ (AUTHZ_PROVIDER_GROUP, "user"%string, "0"%string) := sample_provider AUTHZ_DENIED ]>
    (registry_with "valid-user" (sample_provider AUTHZ_GRANTED)).

Definition sample_cmd : cmd_parms := {| limited := -1 |}.

(** Three bindings that answer denied, error, granted, in that order, and
    three that all answer denied. *)
Definition denied_error_granted : list authz_provider_list :=
  [ sample_binding "user" AUTHZ_DENIED (-1);
    sample_binding "group" AUTHZ_GENERAL_ERROR (-1);
    sample_binding "valid-user" AUTHZ_GRANTED (-1) ].

Definition all_denied : list authz_provider_list :=
  [ sample_binding "user" AUTHZ_DENIED (-1);
    sample_binding "group" AUTHZ_DENIED (-1);
    sample_binding "valid-user" AUTHZ_DENIED (-1) ].

(** Bindings restricted to single methods: bit 0 and bit 2. *)
Definition limited_bindings : list authz_provider_list :=
  [ sample_binding "user" AUTHZ_DENIED 1;
    sample_binding "group" AUTHZ_DENIED 4 ].

(** ** The configuration: merge and bind *)

Lemma link_last_app (l : list authz_provider_list) (newp : authz_provider_list) :
  link_last l newp = l ++ [newp].
Proof.
  induction l as [|n next IH]; [reflexivity|].
  destruct next as [|m rest]; [reflexivity|].
  change (link_last (n :: m :: rest) newp) with (n :: link_last (m :: rest) newp).
  now rewrite IH.
Qed.

Lemma merge_keeps_base_providers (base new : authz_dir_conf) :
  providers (merge_authz_dir_config base new) = providers base.
Proof. unfold merge_authz_dir_config. now destruct (ap_requires new). Qed.

Lemma merge_ap_requires (base new : authz_dir_conf) :
  ap_requires (merge_authz_dir_config base new)
  = match ap_requires new with
    | Some a => Some a
    | None => ap_requires base
    end.
Proof. unfold merge_authz_dir_config. now destruct (ap_requires new). Qed.

Lemma messages_differ (name name' : string) :
  unknown_provider_msg name <> unsupported_provider_msg name'.
Proof. unfold unknown_provider_msg, unsupported_provider_msg. discriminate. Qed.

(** The shape of a successful bind. *)
Lemma add_authz_provider_bound reg cmd conf arg p f :
  ap_lookup_provider reg AUTHZ_PROVIDER_GROUP arg "0" = Some p ->
  check_authorization p = Some f ->
  add_authz_provider reg cmd conf arg
  = (None,
     {| ap_requires := ap_requires conf;
        providers := providers conf ++
          [ {| provider_name := arg; provider := p;
               method_mask := limited cmd; requirement := arg |} ] |}).
Proof.
  intros Hl Hc. unfold add_authz_provider. rewrite Hl, Hc.
  destruct (providers conf) as [|b bs] eqn:E; [reflexivity|].
  now rewrite link_last_app.
Qed.

(** Binding keeps the invariant of a published list: every binding has
    a provider with the check capability. *)
Lemma add_authz_provider_callable reg cmd conf arg :
  Forall callable (providers conf) ->
  Forall callable (providers (add_authz_provider reg cmd conf arg).2).
Proof.
  intros H. unfold add_authz_provider.
  destruct (ap_lookup_provider _ _ _ _) as [p|] eqn:Hl; [|exact H].
  destruct (check_authorization p) as [f|] eqn:Hc; [|exact H].
  cbn [snd providers].
  destruct (providers conf) as [|b bs] eqn:E.
  - repeat constructor. unfold callable. cbn. rewrite Hc. eauto.
  - rewrite link_last_app. apply Forall_app. split; [exact H|].
    repeat constructor. unfold callable. cbn. rewrite Hc. eauto.
Qed.

(** C7: the bind of a [Require] line fails with the unknown-provider
    message exactly when the registry has no provider of the name looked
    up, fails with the unsupported-provider message exactly when the
    provider found has no [check_authorization], and leaves the
    configuration as it was in both cases; otherwise it succeeds and the
    list of bindings is the old list followed by the new binding, the old
    entries kept in place and none dropped. *)
Theorem add_authz_provider_faults_and_tail_append
    (reg : gmap (string * string * string) authz_provider)
    (cmd : cmd_parms) (conf : authz_dir_conf) (arg : string) :
  let out := add_authz_provider reg cmd conf arg in
  let found := ap_lookup_provider reg AUTHZ_PROVIDER_GROUP arg "0" in
  (out.1 = Some (unknown_provider_msg arg) <-> found = None)
  /\ (out.1 = Some (unsupported_provider_msg arg)
      <-> exists p, found = Some p /\ check_authorization p = None)
  /\ (out.1 <> None -> out.2 = conf)
  /\ (out.1 = None
      <-> exists p, found = Some p /\ is_Some (check_authorization p))
  /\ (forall p, found = Some p -> is_Some (check_authorization p) ->
      out.1 = None
      /\ ap_requires out.2 = ap_requires conf
      /\ providers out.2 = providers conf ++
           [ {| provider_name := arg; provider := p;
                method_mask := limited cmd; requirement := arg |} ]
      /\ length (providers out.2) = S (length (providers conf))
      /\ take (length (providers conf)) (providers out.2) = providers conf).
Proof.
  cbn zeta.
  destruct (ap_lookup_provider reg AUTHZ_PROVIDER_GROUP arg "0") as [p|] eqn:Hl.
  - destruct (check_authorization p) as [f|] eqn:Hc.
    + rewrite (add_authz_provider_bound reg cmd conf arg p f Hl Hc).
      cbn [fst snd providers ap_requires].
      split; [|split; [|split; [|split]]].
      * split; discriminate.
      * split; [discriminate|]. intros (q & Hq & Hn). congruence.
      * congruence.
      * split; [|reflexivity]. intros _. exists p. rewrite Hc. eauto.
      * intros q Hq _. injection Hq as <-.
        split; [reflexivity|]. split; [reflexivity|]. split; [reflexivity|].
        split.
        -- rewrite length_app. cbn. lia.
        -- now rewrite take_app_length.
    + assert (Hout : add_authz_provider reg cmd conf arg
                     = (Some (unsupported_provider_msg arg), conf)).
      { unfold add_authz_provider. now rewrite Hl, Hc. }
      rewrite Hout. cbn [fst snd].
      split; [|split; [|split; [|split]]].
      * split; [|discriminate]. intros H. exfalso.
        apply (messages_differ arg arg). congruence.
      * split; [|reflexivity]. intros _. eauto.
      * reflexivity.
      * split; [discriminate|]. intros (q & Hq & Hs).
        injection Hq as <-. rewrite Hc in Hs. now destruct Hs.
      * intros q Hq Hs. injection Hq as <-. rewrite Hc in Hs. now destruct Hs.
  - assert (Hout : add_authz_provider reg cmd conf arg
                   = (Some (unknown_provider_msg arg), conf)).
    { unfold add_authz_provider. now rewrite Hl. }
    rewrite Hout. cbn [fst snd].
    split; [|split; [|split; [|split]]].
    + split; reflexivity.
    + split.
      * intros H. exfalso. apply (messages_differ arg arg). congruence.
      * intros (q & Hq & _). discriminate.
    + reflexivity.
    + split; [discriminate|]. intros (q & Hq & _). discriminate.
    + intros q Hq. discriminate.
Qed.

(** ** The decision mapper *)

Lemma authorize_user_unfold reg conf w calls :
  authorize_user reg conf w calls
  = match run_providers reg conf w calls with
    | Crash w' calls' => Crash w' calls'
    | Done v w' calls' =>
        Done (map_auth_result v w').1 (map_auth_result v w').2 calls'
    end.
Proof.
  unfold authorize_user. destruct (run_providers reg conf w calls) as [v w' c|w' c]; [|reflexivity].
  now destruct (map_auth_result v w').
Qed.

(** C5: the mapping of lines 195 to 222 is defined on the three verdicts:
    granted gives OK and leaves the state alone; denied gives
    HTTP_UNAUTHORIZED, logs the failure and notes one authentication
    challenge; a general error gives HTTP_INTERNAL_SERVER_ERROR and leaves
    the state alone; the three codes differ, a challenge is noted exactly
    when the verdict is denied, and [authorize_user] returns the mapping of
    the verdict its loop ended with. *)
Theorem map_auth_result_total_and_exact (w : world) :
  map_auth_result AUTHZ_GRANTED w = (OK, w)
  /\ map_auth_result AUTHZ_DENIED w
     = (HTTP_UNAUTHORIZED,
        ap_note_basic_auth_failure (ap_log_rerror (authz_failure_msg (req w)) w))
  /\ map_auth_result AUTHZ_GENERAL_ERROR w = (HTTP_INTERNAL_SERVER_ERROR, w)
  /\ (OK <> HTTP_UNAUTHORIZED /\ OK <> HTTP_INTERNAL_SERVER_ERROR
      /\ HTTP_UNAUTHORIZED <> HTTP_INTERNAL_SERVER_ERROR)
  /\ (forall v, challenges (map_auth_result v w).2 = S (challenges w)
                <-> v = AUTHZ_DENIED)
  /\ (forall v, challenges (map_auth_result v w).2 = challenges w
                <-> v <> AUTHZ_DENIED)
  /\ (forall reg conf calls v w' calls',
        run_providers reg conf w calls = Done v w' calls' ->
        authorize_user reg conf w calls
        = Done (map_auth_result v w').1 (map_auth_result v w').2 calls').
Proof.
  assert (G : map_auth_result AUTHZ_GRANTED w = (OK, w)) by reflexivity.
  assert (D : map_auth_result AUTHZ_DENIED w
              = (HTTP_UNAUTHORIZED,
                 ap_note_basic_auth_failure
                   (ap_log_rerror (authz_failure_msg (req w)) w))) by reflexivity.
  assert (E : map_auth_result AUTHZ_GENERAL_ERROR w
              = (HTTP_INTERNAL_SERVER_ERROR, w)) by reflexivity.
  split; [exact G|]. split; [exact D|]. split; [exact E|].
  split; [repeat split; discriminate|].
  split; [|split].
  - intros v. destruct v; rewrite ?G, ?D, ?E; cbn [snd challenges
      ap_note_basic_auth_failure ap_log_rerror]; split; intros H;
      try reflexivity; try discriminate; exfalso; lia.
  - intros v. destruct v; rewrite ?G, ?D, ?E; cbn [snd challenges
      ap_note_basic_auth_failure ap_log_rerror]; split; intros H;
      try reflexivity; try discriminate; try congruence; exfalso; lia.
  - intros reg conf calls v w' calls' H.
    now rewrite authorize_user_unfold, H.
Qed.

(** ** The empty list of bindings *)

Lemma run_providers_empty reg conf w calls :
  providers conf = [] ->
  run_providers reg conf w calls
  = match ap_lookup_provider reg AUTHZ_PROVIDER_GROUP AUTHZ_DEFAULT_PROVIDER "0" with
    | None => Done AUTHZ_GENERAL_ERROR (ap_log_rerror no_default_msg w) calls
    | Some p =>
        match check_authorization p with
        | None => Done AUTHZ_GENERAL_ERROR (ap_log_rerror no_default_msg w) calls
        | Some _ =>
            Crash (apr_table_setn AUTHZ_PROVIDER_NAME_NOTE AUTHZ_DEFAULT_PROVIDER w)
                  calls
        end
    end.
Proof.
  intros E. unfold run_providers. rewrite E. cbn [do_while]. unfold loop_body.
  destruct (ap_lookup_provider _ _ _ _) as [p|]; [|reflexivity].
  now destruct (check_authorization p).
Qed.

(** C6: on an empty list of bindings, when the default provider is not
    registered or has no [check_authorization], the loop ends with
    AUTHZ_GENERAL_ERROR, [authorize_user] returns
    HTTP_INTERNAL_SERVER_ERROR, one line is logged, no challenge is noted
    and no provider was called. *)
Theorem empty_list_without_default_provider
    (reg : gmap (string * string * string) authz_provider)
    (conf : authz_dir_conf) (w : world) (calls : list invocation) :
  providers conf = [] ->
  (ap_lookup_provider reg AUTHZ_PROVIDER_GROUP AUTHZ_DEFAULT_PROVIDER "0" = None
   \/ exists p,
        ap_lookup_provider reg AUTHZ_PROVIDER_GROUP AUTHZ_DEFAULT_PROVIDER "0" = Some p
        /\ check_authorization p = None) ->
  run_providers reg conf w calls
    = Done AUTHZ_GENERAL_ERROR (ap_log_rerror no_default_msg w) calls
  /\ authorize_user reg conf w calls
    = Done HTTP_INTERNAL_SERVER_ERROR (ap_log_rerror no_default_msg w) calls
  /\ calls_of (authorize_user reg conf w calls) = calls
  /\ challenges (ap_log_rerror no_default_msg w) = challenges w.
Proof.
  intros E H.
  assert (R : run_providers reg conf w calls
              = Done AUTHZ_GENERAL_ERROR (ap_log_rerror no_default_msg w) calls).
  { rewrite (run_providers_empty reg conf w calls E).
    destruct H as [-> | (p & -> & ->)]; reflexivity. }
  split; [exact R|].
  rewrite authorize_user_unfold, R. cbn. repeat split.
Qed.

(** ** The applicability query *)

Lemma int64_shl_method_bit (n : Z) :
  0 <= n <= 62 -> int64_shl AP_METHOD_BIT n = 2 ^ n.
Proof.
  intros Hn. unfold int64_shl, AP_METHOD_BIT, wrap_int64.
  rewrite Z.shiftl_1_l.
  assert (0 < 2 ^ n) by (apply Z.pow_pos_nonneg; lia).
  assert (2 ^ n <= 2 ^ 62) by (apply Z.pow_le_mono_r; lia).
  rewrite Z.mod_small; lia.
Qed.

Lemma land_pow2_zero (m n : Z) :
  0 <= n -> (Z.land m (2 ^ n) = 0 <-> Z.testbit m n = false).
Proof.
  intros Hn. split.
  - intros H. assert (T : Z.testbit (Z.land m (2 ^ n)) n = false)
      by (rewrite H; apply Z.bits_0).
    rewrite Z.land_spec, Z.pow2_bits_true in T by lia.
    now rewrite andb_true_r in T.
  - intros H. apply Z.bits_inj'. intros k Hk.
    rewrite Z.land_spec, Z.bits_0, Z.pow2_bits_eqb by lia.
    destruct (Z.eqb_spec n k) as [->|]; [now rewrite H|apply andb_false_r].
Qed.

Lemma testbit_63_int64 (m : Z) :
  is_int64 m -> Z.testbit m 63 = (m <? 0).
Proof.
  unfold is_int64. intros Hm.
  rewrite Z.testbit_odd, Z.shiftr_div_pow2 by lia.
  destruct (Z.ltb_spec m 0) as [Hneg|Hpos].
  - replace (m / 2 ^ 63) with (-1); [reflexivity|].
    apply (Z.div_unique m (2 ^ 63) (-1) (m + 2 ^ 63)); lia.
  - rewrite Z.div_small by lia. reflexivity.
Qed.

Lemma sign_bit_low (k : Z) : 0 <= k < 63 -> Z.testbit (- 2 ^ 63) k = false.
Proof.
  intros Hk. change (- 2 ^ 63) with (Z.shiftl (-1) 63).
  apply Z.shiftl_spec_low. lia.
Qed.

Lemma land_sign_bit_zero (m : Z) :
  is_int64 m -> (Z.land m (- 2 ^ 63) = 0 <-> Z.testbit m 63 = false).
Proof.
  intros Hm. rewrite (testbit_63_int64 m Hm). split.
  - intros H. destruct (Z.ltb_spec m 0) as [Hneg|Hpos]; [|reflexivity].
    assert (T : Z.testbit (Z.land m (- 2 ^ 63)) 63 = false)
      by (rewrite H; apply Z.bits_0).
    rewrite Z.land_spec, (testbit_63_int64 m Hm) in T.
    apply Z.ltb_lt in Hneg. rewrite Hneg in T. exact T.
  - intros H. apply Z.ltb_ge in H. apply Z.bits_inj'. intros k Hk.
    rewrite Z.land_spec, Z.bits_0.
    destruct (Z.lt_ge_cases k 63) as [Hlow|Hhigh].
    + rewrite sign_bit_low by lia. apply andb_false_r.
    + replace (Z.testbit m k) with false; [reflexivity|].
      symmetry. destruct (Z.eq_dec m 0) as [->|Hnz]; [apply Z.bits_0|].
      apply Z.bits_above_log2; [exact H|].
      unfold is_int64 in Hm.
      assert (Z.log2 m < 63) by (apply Z.log2_lt_pow2; lia). lia.
Qed.

Lemma land_method_bit_zero (m n : Z) :
  is_int64 m -> 0 <= n <= 63 ->
  (Z.land m (int64_shl AP_METHOD_BIT n) = 0 <-> Z.testbit m n = false).
Proof.
  intros Hm Hn. destruct (Z.eq_dec n 63) as [->|Hne].
  - change (int64_shl AP_METHOD_BIT 63) with (- 2 ^ 63).
    now apply land_sign_bit_zero.
  - rewrite int64_shl_method_bit by lia. apply land_pow2_zero. lia.
Qed.

Lemma some_auth_loop_spec (bs : list authz_provider_list) (r : request_rec) :
  0 <= method_number r <= 63 ->
  Forall (fun b => is_int64 (method_mask b)) bs ->
  (some_auth_loop bs r = 1
   /\ Exists (fun b => mask_includes (method_mask b) (method_number r)) bs)
  \/ (some_auth_loop bs r = 0
      /\ Forall (fun b => ~ mask_includes (method_mask b) (method_number r)) bs).
Proof.
  intros Hn Hbs. induction Hbs as [|b bs Hb Hbs IH].
  - right. split; [reflexivity|constructor].
  - cbn [some_auth_loop].
    destruct (Z.eqb_spec (Z.land (method_mask b)
                            (int64_shl AP_METHOD_BIT (method_number r))) 0)
      as [E|E].
    + apply land_method_bit_zero in E; [|exact Hb|exact Hn].
      destruct IH as [[-> Hex]|[-> Hall]].
      * left. split; [reflexivity|]. now apply Exists_cons_tl.
      * right. split; [reflexivity|]. constructor; [|exact Hall].
        unfold mask_includes. now rewrite E.
    + left. split; [reflexivity|]. apply Exists_cons_hd.
      unfold mask_includes. destruct (Z.testbit _ _) eqn:T; [reflexivity|].
      exfalso. apply E. now apply land_method_bit_zero.
Qed.

(** C9: for a method number from 0 to 63, the bits of a mask, and masks
    that are [apr_int64_t] values, [authz_some_auth_required] returns 1
    exactly when some binding of the list has the bit of that method set in
    its mask, and 0 otherwise; it returns 0 on the empty list; and it hands
    back the state and the provider calls as it got them: it calls no
    provider. *)
Theorem authz_some_auth_required_iff_some_mask
    (conf : authz_dir_conf) (w : world) (calls : list invocation) :
  0 <= method_number (req w) <= 63 ->
  Forall (fun b => is_int64 (method_mask b)) (providers conf) ->
  exists req_authz : Z,
    authz_some_auth_required conf w calls = Done req_authz w calls
    /\ (req_authz = 1 \/ req_authz = 0)
    /\ (req_authz = 1
        <-> Exists (fun b => mask_includes (method_mask b) (method_number (req w)))
                   (providers conf))
    /\ (providers conf = [] -> req_authz = 0).
Proof.
  intros Hn Hm. exists (some_auth_loop (providers conf) (req w)).
  split; [reflexivity|].
  destruct (some_auth_loop_spec (providers conf) (req w) Hn Hm)
    as [[E Hex]|[E Hall]]; rewrite E.
  - split; [now left|]. split; [tauto|].
    intros Hnil. rewrite Hnil in Hex. inversion Hex.
  - split; [now right|]. split; [|reflexivity].
    split; [discriminate|].
    intros Hex. exfalso. apply Exists_exists in Hex as (b & Hin & Hb).
    rewrite Forall_forall in Hall. exact (Hall b Hin Hb).
Qed.

(** ** The evaluation loop *)

Lemma loop_body_cons reg conf b rest w calls :
  loop_body reg conf (b :: rest) w calls
  = match check_authorization (provider b) with
    | None =>
        Crash (apr_table_setn AUTHZ_PROVIDER_NAME_NOTE (provider_name b) w) calls
    | Some check =>
        let i := invocation_at b check w in
        Done (inv_verdict i,
              if decide (inv_verdict i <> AUTHZ_DENIED) then true
              else match providers conf with [] => true | _ :: _ => false end)
             (inv_exit i) (calls ++ [i])
    end.
Proof.
  unfold loop_body, invocation_at. cbn [head].
  destruct (check_authorization (provider b)) as [check|]; [|reflexivity].
  cbn zeta.
  destruct (check _ _ _) as [v w_ret]. cbn [fst snd inv_verdict inv_exit].
  destruct (decide (v <> AUTHZ_DENIED)); [reflexivity|].
  now destruct (providers conf).
Qed.

Lemma do_while_cons reg conf b rest w calls :
  do_while reg conf (b :: rest) w calls
  = match loop_body reg conf (b :: rest) w calls with
    | Crash w' calls' => Crash w' calls'
    | Done (v, true) w' calls' => Done v w' calls'
    | Done (v, false) w' calls' =>
        match rest with
        | [] => Done v w' calls'
        | _ :: _ => do_while reg conf rest w' calls'
        end
    end.
Proof. reflexivity. Qed.


Lemma slot_after_unset (w : world) :
  slot (apr_table_unset AUTHZ_PROVIDER_NAME_NOTE w) = None.
Proof. unfold slot, apr_table_unset. cbn. apply lookup_delete_eq. Qed.



(** On bindings that can all be called, the loop returns, and its calls
    are a prefix of the bindings, all denied but possibly the last. *)
Lemma do_while_prefix reg conf cur :
  providers conf <> [] ->
  forall w calls,
  cur <> [] ->
  Forall callable cur ->
  exists front lst v w',
    do_while reg conf cur w calls = Done v w' (calls ++ front ++ [lst])
    /\ invocation_call <$> (front ++ [lst])
       = binding_call <$> take (S (length front)) cur
    /\ Forall denied front
    /\ inv_verdict lst = v
    /\ w' = inv_exit lst
    /\ (v = AUTHZ_DENIED -> S (length front) = length cur).
Proof.
  intros Hconf. induction cur as [|b rest IH]; intros w calls Hne Hall; [done|].
  apply Forall_cons in Hall as [[check Hb] Hrest].
  rewrite do_while_cons, loop_body_cons, Hb. cbn zeta.
  set (i := invocation_at b check w).
  destruct (decide (inv_verdict i <> AUTHZ_DENIED)) as [Hv|Hv].
  { exists [], i, (inv_verdict i), (inv_exit i). repeat split; done. }
  destruct (providers conf) as [|c cs] eqn:Ec; [done|].
  assert (Hd : inv_verdict i = AUTHZ_DENIED).
  { destruct (inv_verdict i); try reflexivity; exfalso; apply Hv; discriminate. }
  destruct rest as [|b' rest'].
  { exists [], i, (inv_verdict i), (inv_exit i). repeat split; done. }
  destruct (IH (inv_exit i) (calls ++ [i]) ltac:(done) Hrest)
    as (front & lst & v & w' & E & M & F & V & W & L).
  exists (i :: front), lst, v, w'. split; [|split; [|split; [|split; [|split]]]].
  - rewrite E. now rewrite <- app_assoc.
  - change (take (S (length (i :: front))) (b :: b' :: rest'))
      with (b :: take (S (length front)) (b' :: rest')).
    cbn [app fmap list_fmap]. rewrite <- M. reflexivity.
  - constructor; [exact Hd|exact F].
  - exact V.
  - exact W.
  - intros Hden. cbn [length]. f_equal. exact (L Hden).
Qed.

(** Whatever the bindings are, the calls a loop adds are the calls of
    the first bindings, each made in the state the one before left. *)
Lemma do_while_threaded reg conf cur :
  forall w calls,
  exists invs,
    calls_of (do_while reg conf cur w calls) = calls ++ invs
    /\ threaded w cur invs.
Proof.
  induction cur as [|b rest IH]; intros w calls.
  - exists []. rewrite app_nil_r. split; [|exact I].
    cbn [do_while]. unfold loop_body.
    destruct (ap_lookup_provider _ _ _ _) as [p|]; [|reflexivity].
    now destruct (check_authorization p).
  - rewrite do_while_cons, loop_body_cons.
    destruct (check_authorization (provider b)) as [check|] eqn:Hc.
    2:{ exists []. rewrite app_nil_r. split; [reflexivity|exact I]. }
    cbn zeta. set (i := invocation_at b check w).
    assert (Hi : honest_call w b i) by (exists check; now repeat split).
    assert (One : threaded w (b :: rest) [i]) by (split; [exact Hi|exact I]).
    destruct (decide (inv_verdict i <> AUTHZ_DENIED)).
    { exists [i]. split; [reflexivity|exact One]. }
    destruct (providers conf).
    { exists [i]. split; [reflexivity|exact One]. }
    destruct rest as [|b' rest'].
    { exists [i]. split; [reflexivity|exact One]. }
    destruct (IH (inv_exit i) (calls ++ [i])) as (invs & E & T).
    exists (i :: invs). split.
    + rewrite E. now rewrite <- app_assoc.
    + split; [exact Hi|exact T].
Qed.

(** The last of a thread of calls is the call of one of the bindings. *)
Lemma threaded_last (bs : list authz_provider_list) (front : list invocation)
    (lst : invocation) :
  forall w, threaded w bs (front ++ [lst]) ->
  exists b w0, b ∈ bs /\ honest_call w0 b lst.
Proof.
  revert bs. induction front as [|i front IH]; intros bs w T.
  - destruct bs as [|b bs]; [destruct T|]. destruct T as [H _].
    exists b, w. split; [apply list_elem_of_here|exact H].
  - destruct bs as [|b bs]; [destruct T|]. destruct T as [_ T].
    destruct (IH bs (inv_exit i) T) as (b' & w0 & Hin & H).
    exists b', w0. split; [now apply list_elem_of_further|exact H].
Qed.

(** C1: on a non-empty list of bindings that can all be called, and for
    every state of the request (whatever its method and whatever the
    masks), the loop returns a verdict; the providers it called are the
    first bindings of the list, in the order of the list and from its head,
    each called with its own mask and requirement; every record of a call
    holds what the function of that binding's provider answered in the
    state the call before it left, the first call starting from the state
    of the request; every call before the last was denied, the verdict of
    the last call is the verdict of the loop and the state it left is the
    state of the loop; and the verdict is denied exactly when every binding
    of the list was called and every call was denied. *)
Theorem run_providers_first_not_denied_wins
    (reg : gmap (string * string * string) authz_provider)
    (conf : authz_dir_conf) (w : world) (calls : list invocation) :
  providers conf <> [] ->
  Forall callable (providers conf) ->
  exists (front : list invocation) (lst : invocation)
         (v : authz_status) (w' : world),
    run_providers reg conf w calls = Done v w' (calls ++ front ++ [lst])
    /\ invocation_call <$> (front ++ [lst])
       = binding_call <$> take (S (length front)) (providers conf)
    /\ (S (length front) <= length (providers conf))%nat
    /\ threaded w (providers conf) (front ++ [lst])
    /\ Forall denied front
    /\ inv_verdict lst = v
    /\ inv_exit lst = w'
    /\ (v = AUTHZ_DENIED
        <-> S (length front) = length (providers conf)
            /\ Forall denied (front ++ [lst])).
Proof.
  intros Hne Hall.
  destruct (do_while_prefix reg conf (providers conf) Hne w calls Hne Hall)
    as (front & lst & v & w' & E & M & F & V & W & L).
  exists front, lst, v, w'.
  split; [exact E|]. split; [exact M|]. split.
  { apply (f_equal length) in M.
    rewrite !length_fmap, length_app, length_take in M. cbn [length] in M. lia. }
  split.
  { destruct (do_while_threaded reg conf (providers conf) w calls)
      as (invs & C & T).
    rewrite E in C. cbn [calls_of] in C. apply app_inv_head in C.
    now rewrite C. }
  split; [exact F|]. split; [exact V|]. split; [now rewrite W|]. split.
  - intros Hd. split; [exact (L Hd)|].
    apply Forall_app. split; [exact F|]. constructor; [|constructor].
    unfold denied. congruence.
  - intros [_ Hd]. apply Forall_app in Hd as [_ Hl].
    apply Forall_cons in Hl as [Hl _]. unfold denied in Hl. congruence.
Qed.

(** ** The slot is a side channel *)





(** ** What a loaded scope guarantees *)

Lemma built_inv reg conf :
  built reg conf ->
  ap_requires conf = None /\ Forall (resolved reg) (providers conf).
Proof.
  induction 1 as [|cmd conf arg Hm Hb [IHa IHp]|base new Hb [IHa IHp] Hn [IHa' IHp']].
  - split; [reflexivity|constructor].
  - unfold add_authz_provider.
    destruct (ap_lookup_provider reg AUTHZ_PROVIDER_GROUP arg "0") as [p|] eqn:Hl;
      [|now split].
    destruct (check_authorization p) as [f|] eqn:Hc; [|now split].
    cbn [snd ap_requires providers]. split; [exact IHa|].
    assert (Hnew : resolved reg {| provider_name := arg; provider := p;
                                   method_mask := limited cmd;
                                   requirement := arg |}).
    { unfold resolved, callable. cbn. rewrite Hc. eauto. }
    destruct (providers conf) as [|b bs] eqn:E.
    + constructor; [exact Hnew|constructor].
    + rewrite link_last_app. apply Forall_app. split; [exact IHp|].
      constructor; [exact Hnew|constructor].
  - rewrite merge_keeps_base_providers, merge_ap_requires, IHa'.
    now split.
Qed.


(** Nothing in the module fills [ap_requires]: for every loaded scope
    [authz_ap_requires] returns [NULL]. *)
Theorem built_has_no_ap_requires
    (reg : gmap (string * string * string) authz_provider)
    (conf : authz_dir_conf) :
  built reg conf -> authz_ap_requires conf = None.
Proof. intros H. exact (proj1 (built_inv reg conf H)). Qed.

(** On a scope loaded against [reg] with at least one binding,
    [authorize_user] returns, whatever registry [reg'] is in place when the
    request is served: it never stops at a read through [NULL]; it calls at
    least one provider, its calls being the calls of the first bindings of
    the scope, each record holding what the function of the binding's
    provider answered in the state the call before it left; and its code is
    OK, HTTP_UNAUTHORIZED or HTTP_INTERNAL_SERVER_ERROR. *)
Theorem built_scope_is_answered
    (reg reg' : gmap (string * string * string) authz_provider)
    (conf : authz_dir_conf) (w : world) (calls : list invocation) :
  built reg conf ->
  providers conf <> [] ->
  exists code w' invs,
    authorize_user reg' conf w calls = Done code w' (calls ++ invs)
    /\ invs <> []
    /\ threaded w (providers conf) invs
    /\ (code = OK \/ code = HTTP_UNAUTHORIZED
        \/ code = HTTP_INTERNAL_SERVER_ERROR).
Proof.
  intros Hb Hne.
  assert (Hc : Forall callable (providers conf)).
  { eapply Forall_impl; [exact (proj2 (built_inv reg conf Hb))|].
    intros b Hr. exact (proj1 Hr). }
  destruct (do_while_prefix reg' conf (providers conf) Hne w calls Hne Hc)
    as (front & lst & v & w' & E & _).
  rewrite authorize_user_unfold. unfold run_providers. rewrite E.
  exists (map_auth_result v w').1, (map_auth_result v w').2, (front ++ [lst]).
  split; [reflexivity|]. split; [now destruct front|]. split.
  { destruct (do_while_threaded reg' conf (providers conf) w calls)
      as (invs & C & T).
    rewrite E in C. cbn [calls_of] in C. apply app_inv_head in C.
    now rewrite C. }
  destruct v; cbn; tauto.
Qed.

(** ** What every returning run guarantees *)

(** A loop that returns either found no binding and no usable default
    provider, or made calls that were all denied but possibly the last,
    whose verdict it returns and after which the note is unset. *)
Lemma do_while_done reg conf cur :
  forall w calls v w' calls',
  do_while reg conf cur w calls = Done v w' calls' ->
  (cur = [] /\ v = AUTHZ_GENERAL_ERROR
   /\ w' = ap_log_rerror no_default_msg w /\ calls' = calls)
  \/ (cur <> []
      /\ exists front lst,
           calls' = calls ++ front ++ [lst]
           /\ Forall denied front
           /\ inv_verdict lst = v
           /\ w' = inv_exit lst
           /\ slot w' = None).
Proof.
  induction cur as [|b rest IH]; intros w calls v w' calls'.
  - cbn [do_while]. unfold loop_body.
    destruct (ap_lookup_provider _ _ _ _) as [p|].
    + destruct (check_authorization p); [discriminate|].
      intros [= <- <- <-]. now left.
    + intros [= <- <- <-]. now left.
  - rewrite do_while_cons, loop_body_cons.
    destruct (check_authorization (provider b)) as [check|]; [|discriminate].
    cbn zeta. set (i := invocation_at b check w).
    assert (One : forall v w' calls',
              Done (inv_verdict i) (inv_exit i) (calls ++ [i]) = Done v w' calls' ->
              exists front lst,
                calls' = calls ++ front ++ [lst] /\ Forall denied front
                /\ inv_verdict lst = v /\ w' = inv_exit lst /\ slot w' = None).
    { intros v0 w0 c0 [= <- <- <-]. exists [], i.
      repeat split; try done. apply slot_after_unset. }
    destruct (decide (inv_verdict i <> AUTHZ_DENIED)) as [Hv|Hv].
    { intros H. right. split; [done|]. now apply One. }
    destruct (providers conf).
    { intros H. right. split; [done|]. now apply One. }
    destruct rest as [|b' rest'].
    { intros H. right. split; [done|]. now apply One. }
    intros H.
    apply IH in H as [(Hnil & _)|(_ & front & lst & -> & F & V & W & S)];
      [discriminate|].
    right. split; [done|].
    exists (i :: front), lst. split; [now rewrite <- app_assoc|].
    split; [|done]. constructor; [|exact F].
    unfold denied. destruct (inv_verdict i); try reflexivity;
      exfalso; apply Hv; discriminate.
Qed.

Lemma map_auth_result_notes v w :
  notes (req (map_auth_result v w).2) = notes (req w).
Proof. now destruct v. Qed.

(** [authorize_user] grants only on a provider's word: when it returns OK,
    some provider was called in this run; the calls of the run are the
    calls of the first bindings of the scope, each record holding what the
    function of the binding's provider answered in the state the call
    before it left; the last call answered granted and every call before
    it answered denied; so the function of the provider of some binding of
    the scope, applied to that binding's mask and requirement with the note
    set to its name, answered AUTHZ_GRANTED. *)
Theorem ok_needs_a_granting_provider
    (reg : gmap (string * string * string) authz_provider)
    (conf : authz_dir_conf) (w w' : world) (calls calls' : list invocation) :
  authorize_user reg conf w calls = Done OK w' calls' ->
  exists front lst,
    calls' = calls ++ front ++ [lst]
    /\ threaded w (providers conf) (front ++ [lst])
    /\ Forall denied front
    /\ inv_verdict lst = AUTHZ_GRANTED
    /\ exists b check w0,
         b ∈ providers conf
         /\ check_authorization (provider b) = Some check
         /\ (check (apr_table_setn AUTHZ_PROVIDER_NAME_NOTE (provider_name b) w0)
                   (method_mask b) (requirement b)).1 = AUTHZ_GRANTED.
Proof.
  rewrite authorize_user_unfold. unfold run_providers.
  destruct (do_while reg conf (providers conf) w calls) as [v w0 c0|w0 c0] eqn:E;
    [|discriminate].
  intros H. injection H as Hcode _ ->.
  assert (v = AUTHZ_GRANTED) as -> by (destruct v; cbn in Hcode; done).
  pose proof (do_while_threaded reg conf (providers conf) w calls)
    as (invs & C & T).
  rewrite E in C. cbn [calls_of] in C.
  apply do_while_done in E as [(_ & Hv & _)|(_ & front & lst & -> & F & V & _)];
    [discriminate|].
  apply app_inv_head in C. rewrite <- C in T.
  exists front, lst. split; [reflexivity|]. split; [exact T|].
  split; [exact F|]. split; [exact V|].
  destruct (threaded_last _ _ _ _ T)
    as (b & ws & Hin & check & Hc & _ & Hm & Hr & He & Hv & _).
  exists b, check, ws. split; [exact Hin|]. split; [exact Hc|].
  rewrite He, Hm, Hr in Hv. now rewrite <- Hv.
Qed.

(** The note does not outlive the run: when [authorize_user] returns on a
    scope with bindings the note is unset in the state it leaves, and when
    it returns on a scope without bindings the note is what it was. *)
Theorem note_does_not_outlive_the_run
    (reg : gmap (string * string * string) authz_provider)
    (conf : authz_dir_conf) (w w' : world) (calls calls' : list invocation)
    (code : Z) :
  authorize_user reg conf w calls = Done code w' calls' ->
  slot w' = match providers conf with
            | [] => slot w
            | _ :: _ => None
            end.
Proof.
  rewrite authorize_user_unfold. unfold run_providers.
  destruct (do_while reg conf (providers conf) w calls) as [v w0 c0|w0 c0] eqn:E;
    [|discriminate].
  intros H. injection H as _ <- _.
  unfold slot. rewrite map_auth_result_notes.
  apply do_while_done in E
    as [(Hnil & _ & -> & _)|(Hne & front & lst & _ & _ & _ & _ & S)].
  - now rewrite Hnil.
  - destruct (providers conf) as [|b bs]; [done|exact S].
Qed.

Lemma do_while_challenges reg conf cur :
  Forall keeps_challenges cur ->
  forall w calls v w' calls',
  do_while reg conf cur w calls = Done v w' calls' ->
  challenges w' = challenges w.
Proof.
  induction 1 as [|b rest Hb Hrest IH]; intros w calls v w' calls'.
  - cbn [do_while]. unfold loop_body.
    destruct (ap_lookup_provider _ _ _ _) as [p|].
    + destruct (check_authorization p); [discriminate|].
      now intros [= <- <- <-].
    + now intros [= <- <- <-].
  - rewrite do_while_cons, loop_body_cons.
    destruct (check_authorization (provider b)) as [check|] eqn:Hc; [|discriminate].
    cbn zeta. set (i := invocation_at b check w).
    assert (Hi : challenges (inv_exit i) = challenges w).
    { unfold i, invocation_at. cbn. now rewrite (Hb check Hc). }
    destruct (decide (inv_verdict i <> AUTHZ_DENIED)).
    { now intros [= <- <- <-]. }
    destruct (providers conf).
    { now intros [= <- <- <-]. }
    destruct rest as [|b' rest'].
    { now intros [= <- <- <-]. }
    intros H. apply IH in H. congruence.
Qed.

(** When no provider of the scope touches the count of challenges, a run
    of [authorize_user] that returns has noted exactly one challenge if
    its code is HTTP_UNAUTHORIZED and none otherwise. *)
Theorem one_challenge_per_refusal
    (reg : gmap (string * string * string) authz_provider)
    (conf : authz_dir_conf) (w w' : world) (calls calls' : list invocation)
    (code : Z) :
  Forall keeps_challenges (providers conf) ->
  authorize_user reg conf w calls = Done code w' calls' ->
  challenges w'
  = (challenges w + if decide (code = HTTP_UNAUTHORIZED) then 1 else 0)%nat.
Proof.
  intros Hk. rewrite authorize_user_unfold. unfold run_providers.
  destruct (do_while reg conf (providers conf) w calls) as [v w0 c0|w0 c0] eqn:E;
    [|discriminate].
  intros H. injection H as <- <- _.
  apply (do_while_challenges reg conf _ Hk) in E.
  assert (G : map_auth_result AUTHZ_GRANTED w0 = (OK, w0)) by reflexivity.
  assert (D : map_auth_result AUTHZ_DENIED w0
              = (HTTP_UNAUTHORIZED,
                 ap_note_basic_auth_failure
                   (ap_log_rerror (authz_failure_msg (req w0)) w0))) by reflexivity.
  assert (R : map_auth_result AUTHZ_GENERAL_ERROR w0
              = (HTTP_INTERNAL_SERVER_ERROR, w0)) by reflexivity.
  destruct v; rewrite ?G, ?D, ?R;
    cbn [fst snd challenges ap_note_basic_auth_failure ap_log_rerror];
    destruct (decide _) as [Hc|Hc]; try discriminate Hc; try lia;
    exfalso; apply Hc; reflexivity.
Qed.

(** At request time a scope with bindings does not consult the registry:
    the providers were looked up when the scope was loaded, and two runs
    that differ only in the registry are the same run. *)
Theorem registry_is_not_read_for_bound_scopes
    (reg reg' : gmap (string * string * string) authz_provider)
    (conf : authz_dir_conf) (w : world) (calls : list invocation) :
  providers conf <> [] ->
  authorize_user reg conf w calls = authorize_user reg' conf w calls.
Proof.
  intros Hne. unfold authorize_user, run_providers.
  assert (E : forall cur w calls, cur <> [] ->
              do_while reg conf cur w calls = do_while reg' conf cur w calls).
  { clear w calls. induction cur as [|b rest IH]; intros w calls Hc; [done|].
    rewrite !do_while_cons, !loop_body_cons.
    destruct (check_authorization (provider b)); [|reflexivity].
    cbn zeta. destruct (decide _); [reflexivity|].
    destruct (providers conf); [reflexivity|].
    destruct rest as [|b' rest']; [reflexivity|]. now apply IH. }
  now rewrite (E (providers conf) w calls Hne).
Qed.

(** ** The merge as an operation *)

(** [merge_authz_dir_config] is associative, and merging a freshly created
    configuration into a scope gives that scope back. *)
Theorem merge_is_associative_with_fresh_identity
    (a b c : authz_dir_conf) :
  merge_authz_dir_config (merge_authz_dir_config a b) c
  = merge_authz_dir_config a (merge_authz_dir_config b c)
  /\ merge_authz_dir_config a create_authz_dir_config = a.
Proof.
  split; [|reflexivity].
  unfold merge_authz_dir_config.
  destruct a as [ra pa], b as [rb pb], c as [rc pc]; cbn.
  destruct rc as [xc|], rb as [xb|]; reflexivity.
Qed.

(** ** The merge the module record asks for *)

(** C4: the merger slot of the module record is [NULL], so the merge of a
    parent and a child scope is the override of the host, and
    [merge_authz_dir_config] takes no part in it: the merged configuration
    is the child's, unchanged, when the child's list of bindings is not
    empty, and the parent's, unchanged, when it is empty; in both cases the
    merged list is the list of one of the two scopes, never a mix of
    both. *)
Theorem merge_of_scopes_is_all_or_nothing (base new : authz_dir_conf) :
  merge_dir_config authz_module = None
  /\ (providers new <> [] ->
      merge_per_dir_config authz_module base new = new)
  /\ (providers new = [] ->
      merge_per_dir_config authz_module base new = base)
  /\ (providers (merge_per_dir_config authz_module base new) = providers new
      \/ providers (merge_per_dir_config authz_module base new) = providers base)
  /\ (forall b,
        b ∈ providers (merge_per_dir_config authz_module base new) ->
        (providers new <> [] -> b ∈ providers new)
        /\ (providers new = [] -> b ∈ providers base)).
Proof.
  split; [reflexivity|].
  unfold merge_per_dir_config, authz_module, default_override.
  cbn [merge_dir_config].
  destruct (providers new) as [|n ns] eqn:E.
  - split; [done|]. split; [done|]. split; [now right|].
    intros b Hb. split; [done|]. intros _. exact Hb.
  - split; [done|]. split; [done|]. split; [left; now rewrite E|].
    intros b Hb. split; [|done]. intros _. now rewrite <- E.
Qed.

(** ** Loading several lines *)

Lemma add_authz_provider_resolves reg cmd conf arg :
  resolves reg arg ->
  exists b, bound_from reg cmd arg b
            /\ add_authz_provider reg cmd conf arg
               = (None, {| ap_requires := ap_requires conf;
                           providers := providers conf ++ [b] |}).
Proof.
  intros (p & Hl & f & Hc).
  exists {| provider_name := arg; provider := p;
            method_mask := limited cmd; requirement := arg |}.
  split; [now repeat split|].
  exact (add_authz_provider_bound reg cmd conf arg p f Hl Hc).
Qed.

Lemma add_authz_provider_fails reg cmd conf arg :
  ~ resolves reg arg ->
  exists err, add_authz_provider reg cmd conf arg = (Some err, conf)
              /\ (err = unknown_provider_msg arg
                  \/ err = unsupported_provider_msg arg).
Proof.
  intros Hn. unfold add_authz_provider.
  destruct (ap_lookup_provider reg AUTHZ_PROVIDER_GROUP arg "0") as [p|] eqn:Hl.
  - destruct (check_authorization p) as [f|] eqn:Hc.
    + exfalso. apply Hn. exists p. rewrite Hc. eauto.
    + eexists. split; [reflexivity|now right].
  - eexists. split; [reflexivity|now left].
Qed.

(** Lines that all bind are bound in the order of the file: the load ends
    without an error, [ap_requires] is as before, and the list of
    bindings is the old list followed by one binding per line, in the
    order of the lines, repeated lines included. *)
Theorem add_all_keeps_the_order_of_the_lines
    (reg : gmap (string * string * string) authz_provider)
    (cmd : cmd_parms) (conf : authz_dir_conf) (args : list string) :
  Forall (resolves reg) args ->
  exists bs,
    add_all reg cmd conf args
    = (None, {| ap_requires := ap_requires conf;
                providers := providers conf ++ bs |})
    /\ Forall2 (bound_from reg cmd) args bs.
Proof.
  intros H. revert conf. induction H as [|arg rest Ha Hrest IH]; intros conf.
  - exists []. split; [|constructor]. cbn. rewrite app_nil_r. now destruct conf.
  - destruct (add_authz_provider_resolves reg cmd conf arg Ha) as (b & Hb & E).
    cbn [add_all]. rewrite E.
    destruct (IH {| ap_requires := ap_requires conf;
                    providers := providers conf ++ [b] |}) as (bs & E' & F).
    exists (b :: bs). split; [|now constructor].
    rewrite E'. cbn [ap_requires providers]. now rewrite <- app_assoc.
Qed.

(** The first line that does not bind ends the load with its message: the
    lines before it are bound, in order, and the lines after it leave no
    trace. *)
Theorem add_all_stops_at_the_first_fault
    (reg : gmap (string * string * string) authz_provider)
    (cmd : cmd_parms) (conf : authz_dir_conf)
    (good : list string) (bad : string) (rest : list string) :
  Forall (resolves reg) good ->
  ~ resolves reg bad ->
  exists bs err,
    add_all reg cmd conf (good ++ bad :: rest)
    = (Some err, {| ap_requires := ap_requires conf;
                    providers := providers conf ++ bs |})
    /\ Forall2 (bound_from reg cmd) good bs
    /\ (err = unknown_provider_msg bad \/ err = unsupported_provider_msg bad).
Proof.
  intros H Hbad. revert conf. induction H as [|arg good Ha Hgood IH]; intros conf.
  - destruct (add_authz_provider_fails reg cmd conf bad Hbad) as (err & E & Herr).
    exists [], err. cbn [app add_all]. rewrite E.
    split; [|split; [constructor|exact Herr]].
    rewrite app_nil_r. now destruct conf.
  - destruct (add_authz_provider_resolves reg cmd conf arg Ha) as (b & Hb & E).
    cbn [app add_all]. rewrite E.
    destruct (IH {| ap_requires := ap_requires conf;
                    providers := providers conf ++ [b] |})
      as (bs & err & E' & F & Herr).
    exists (b :: bs), err. split; [|split; [now constructor|exact Herr]].
    rewrite E'. cbn [ap_requires providers]. now rewrite <- app_assoc.
Qed.

(** ** Binding and the applicability query *)

Lemma method_bit_is_int64 (n : Z) :
  0 <= n <= 63 -> is_int64 (int64_shl AP_METHOD_BIT n).
Proof.
  intros Hn. destruct (Z.eq_dec n 63) as [->|Hne].
  - unfold is_int64. vm_compute. split; [discriminate|reflexivity].
  - rewrite int64_shl_method_bit by lia. unfold is_int64.
    assert (0 < 2 ^ n) by (apply Z.pow_pos_nonneg; lia).
    assert (2 ^ n <= 2 ^ 62) by (apply Z.pow_le_mono_r; lia). lia.
Qed.

Lemma method_bit_testbit (n k : Z) :
  0 <= n <= 63 -> 0 <= k <= 63 ->
  Z.testbit (int64_shl AP_METHOD_BIT n) k = true <-> k = n.
Proof.
  intros Hn Hk. destruct (Z.eq_dec n 63) as [->|Hne].
  - change (int64_shl AP_METHOD_BIT 63) with (- 2 ^ 63).
    destruct (Z.eq_dec k 63) as [->|Hk'].
    + split; reflexivity.
    + rewrite sign_bit_low by lia. split; [discriminate|lia].
  - rewrite int64_shl_method_bit, Z.pow2_bits_eqb by lia.
    destruct (Z.eqb_spec n k); split; intros; try done; lia.
Qed.

(** A binding limited to the single method [n], whose mask is
    [AP_METHOD_BIT << n], asks for authorization on the requests of
    method [n] and on no others. *)
Theorem single_method_binding_applies_to_its_method_only
    (b : authz_provider_list) (n : Z) (w : world) (calls : list invocation) :
  0 <= n <= 63 ->
  0 <= method_number (req w) <= 63 ->
  method_mask b = int64_shl AP_METHOD_BIT n ->
  value_of (authz_some_auth_required
              {| ap_requires := None; providers := [b] |} w calls) = Some 1
  <-> method_number (req w) = n.
Proof.
  intros Hn Hk Hm. unfold authz_some_auth_required.
  cbn [value_of providers some_auth_loop]. rewrite Hm.
  pose proof (land_method_bit_zero (int64_shl AP_METHOD_BIT n)
                (method_number (req w)) (method_bit_is_int64 n Hn) Hk) as L.
  pose proof (method_bit_testbit n (method_number (req w)) Hn Hk) as T.
  destruct (Z.eqb_spec (Z.land (int64_shl AP_METHOD_BIT n)
                          (int64_shl AP_METHOD_BIT (method_number (req w)))) 0)
    as [E|E].
  - split; [discriminate|]. intros Hmn. exfalso.
    apply L in E. apply T in Hmn. congruence.
  - split; [|reflexivity]. intros _. apply T.
    destruct (Z.testbit _ _); [reflexivity|]. exfalso. apply E, L. reflexivity.
Qed.

(** After a line that binds, a method needs authorization exactly when it
    needed it before or the method restriction of the new line includes
    it: a further line never lifts the need. *)
Theorem binding_extends_the_applicability
    (reg : gmap (string * string * string) authz_provider)
    (cmd : cmd_parms) (conf : authz_dir_conf) (arg : string)
    (w : world) (calls : list invocation) :
  resolves reg arg ->
  0 <= method_number (req w) <= 63 ->
  is_int64 (limited cmd) ->
  Forall (fun b => is_int64 (method_mask b)) (providers conf) ->
  value_of (authz_some_auth_required
              (add_authz_provider reg cmd conf arg).2 w calls) = Some 1
  <-> value_of (authz_some_auth_required conf w calls) = Some 1
      \/ mask_includes (limited cmd) (method_number (req w)).
Proof.
  intros Ha Hk Hl Hm.
  destruct (add_authz_provider_resolves reg cmd conf arg Ha)
    as (b & (_ & _ & Hmask & _) & ->).
  unfold authz_some_auth_required. cbn [snd value_of providers].
  assert (Hm' : Forall (fun b => is_int64 (method_mask b)) (providers conf ++ [b])).
  { apply Forall_app. split; [exact Hm|]. constructor; [|constructor].
    now rewrite Hmask. }
  destruct (some_auth_loop_spec (providers conf ++ [b]) (req w) Hk Hm')
    as [[-> Hex]|[-> Hall]];
  destruct (some_auth_loop_spec (providers conf) (req w) Hk Hm)
    as [[-> Hex0]|[-> Hall0]].
  - tauto.
  - split; [intros _|reflexivity]. right.
    apply Exists_app in Hex as [Hex|Hex].
    + exfalso. apply Exists_exists in Hex as (x & Hin & Hx).
      rewrite Forall_forall in Hall0. exact (Hall0 x Hin Hx).
    + apply Exists_cons in Hex as [Hex|Hex]; [now rewrite <- Hmask|inversion Hex].
  - split; [discriminate|]. intros _. exfalso.
    apply Forall_app in Hall as [Hall _].
    apply Exists_exists in Hex0 as (x & Hin & Hx).
    rewrite Forall_forall in Hall. exact (Hall x Hin Hx).
  - split; [discriminate|]. intros [H|H]; [discriminate|]. exfalso.
    apply Forall_app in Hall as [_ Hall]. apply Forall_cons in Hall as [Hb _].
    apply Hb. now rewrite Hmask.
Qed.

End Authz.

Arguments Done {backend A} a w calls.
Arguments Crash {backend A} w calls.

(** * The statements at concrete inputs

    The providers' own state is [unit]; the names of mod_auth.h are taken
    to be "authz", "valid-user" and "authz_provider_name". *)

(** The loop on denied, error, granted. *)
Lemma run_providers_first_not_denied_wins_witness :
  providers (sample_conf (backend := unit) denied_error_granted) <> []
  /\ Forall callable (providers (sample_conf (backend := unit) denied_error_granted))
  /\ exists front lst v w',
       run_providers "authz" "valid-user" "authz_provider_name" ∅
         (sample_conf denied_error_granted) (sample_world tt 0) []
       = Done v w' ([] ++ front ++ [lst])
       /\ invocation_call <$> (front ++ [lst])
          = binding_call <$> take (S (length front))
                                  (providers (sample_conf denied_error_granted))
       /\ (S (length front)
           <= length (providers (sample_conf (backend := unit) denied_error_granted)))%nat
       /\ threaded "authz_provider_name" (sample_world tt 0)
            (providers (sample_conf denied_error_granted)) (front ++ [lst])
       /\ Forall denied front
       /\ inv_verdict lst = v
       /\ inv_exit lst = w'
       /\ (v = AUTHZ_DENIED
           <-> S (length front)
               = length (providers (sample_conf (backend := unit) denied_error_granted))
               /\ Forall denied (front ++ [lst])).
Proof.
  split; [discriminate|].
  split; [repeat constructor; eexists; reflexivity|].
  apply (run_providers_first_not_denied_wins "authz" "valid-user"
           "authz_provider_name" ∅ (sample_conf denied_error_granted)
           (sample_world tt 0) []).
  - discriminate.
  - repeat constructor; eexists; reflexivity.
Defined.

(** No binding and an empty registry. *)
Lemma empty_list_without_default_provider_witness :
  providers (create_authz_dir_config (backend := unit)) = []
  /\ (ap_lookup_provider (backend := unit) ∅ "authz" "valid-user" "0" = None
      \/ exists p,
           ap_lookup_provider (backend := unit) ∅ "authz" "valid-user" "0" = Some p
           /\ check_authorization p = None)
  /\ run_providers "authz" "valid-user" "authz_provider_name" ∅
       create_authz_dir_config (sample_world tt 0) []
     = Done AUTHZ_GENERAL_ERROR (ap_log_rerror no_default_msg (sample_world tt 0)) []
  /\ authorize_user "authz" "valid-user" "authz_provider_name" ∅
       create_authz_dir_config (sample_world tt 0) []
     = Done HTTP_INTERNAL_SERVER_ERROR
         (ap_log_rerror no_default_msg (sample_world tt 0)) []
  /\ calls_of (authorize_user "authz" "valid-user" "authz_provider_name" ∅
                 create_authz_dir_config (sample_world tt 0) []) = []
  /\ challenges (ap_log_rerror no_default_msg (sample_world tt 0))
     = challenges (sample_world tt 0).
Proof.
  split; [reflexivity|].
  split; [left; reflexivity|].
  apply (empty_list_without_default_provider "authz" "valid-user"
           "authz_provider_name" ∅ create_authz_dir_config (sample_world tt 0) []).
  - reflexivity.
  - left. reflexivity.
Defined.

(** A request of method 2 against the masks 1 and 4. *)
Lemma authz_some_auth_required_iff_some_mask_witness :
  0 <= method_number (req (sample_world tt 2)) <= 63
  /\ Forall (fun b : authz_provider_list (backend := unit) =>
               is_int64 (method_mask b))
            (providers (sample_conf limited_bindings))
  /\ exists req_authz : Z,
       authz_some_auth_required (sample_conf limited_bindings) (sample_world tt 2) []
       = Done req_authz (sample_world tt 2) []
       /\ (req_authz = 1 \/ req_authz = 0)
       /\ (req_authz = 1
           <-> Exists (fun b : authz_provider_list (backend := unit) =>
                         mask_includes (method_mask b)
                           (method_number (req (sample_world tt 2))))
                      (providers (sample_conf limited_bindings)))
       /\ (providers (sample_conf (backend := unit) limited_bindings) = []
           -> req_authz = 0).
Proof.
  split; [cbn; lia|].
  split; [repeat constructor; unfold is_int64; cbn; lia|].
  apply (authz_some_auth_required_iff_some_mask (sample_conf limited_bindings)
           (sample_world tt 2) []).
  - cbn. lia.
  - repeat constructor; unfold is_int64; cbn; lia.
Defined.


(** ** Runs of the loop on the sample bindings *)

Example granted_first_stops_after_one_call :
  let run := authorize_user (backend := unit) "authz" "valid-user"
               "authz_provider_name" ∅
               (sample_conf [ sample_binding "valid-user" AUTHZ_GRANTED (-1);
                              sample_binding "user" AUTHZ_DENIED (-1);
                              sample_binding "group" AUTHZ_DENIED (-1) ])
               (sample_world tt 0) [] in
  value_of run = Some OK
  /\ inv_requirement <$> calls_of run = ["valid-user"%string].
Proof. vm_compute. split; reflexivity. Qed.

Example all_denied_calls_every_binding_in_order :
  let run := authorize_user (backend := unit) "authz" "valid-user"
               "authz_provider_name" ∅ (sample_conf all_denied)
               (sample_world tt 0) [] in
  value_of run = Some HTTP_UNAUTHORIZED
  /\ inv_requirement <$> calls_of run
     = ["user"%string; "group"%string; "valid-user"%string].
Proof. vm_compute. split; reflexivity. Qed.

Example error_hides_a_later_grant :
  let run := authorize_user (backend := unit) "authz" "valid-user"
               "authz_provider_name" ∅ (sample_conf denied_error_granted)
               (sample_world tt 0) [] in
  value_of run = Some HTTP_INTERNAL_SERVER_ERROR
  /\ inv_requirement <$> calls_of run = ["user"%string; "group"%string].
Proof. vm_compute. split; reflexivity. Qed.

(** The loop does not look at the masks: for a request of method 1 the
    query finds no binding that applies, and the loop still calls both
    bindings, passing each its mask. *)
Example bindings_are_called_whatever_their_mask :
  let conf := sample_conf (backend := unit) limited_bindings in
  let run := authorize_user "authz" "valid-user" "authz_provider_name" ∅
               conf (sample_world tt 1) [] in
  value_of (authz_some_auth_required conf (sample_world tt 1) []) = Some 0
  /\ value_of run = Some HTTP_UNAUTHORIZED
  /\ inv_mask <$> calls_of run = [1; 4].
Proof. vm_compute. repeat split; reflexivity. Qed.

(** A default provider without [check_authorization] is as good as none. *)
Example incapable_default_provider_is_an_error :
  let run := authorize_user (backend := unit) "authz" "valid-user"
               "authz_provider_name"
               (registry_with "authz" "valid-user" incapable_provider)
               create_authz_dir_config (sample_world tt 0) [] in
  value_of run = Some HTTP_INTERNAL_SERVER_ERROR /\ calls_of run = [].
Proof. vm_compute. split; reflexivity. Qed.

(** The merge of nested scopes on the sample bindings: a child with the
    binding of "valid-user" under a parent with those of "user" and "group"
    keeps its own binding, and a child without bindings has the two of the
    parent. *)
Example child_bindings_replace_the_parent_bindings :
  let parent := sample_conf (backend := unit)
                  [ sample_binding "user" AUTHZ_DENIED (-1);
                    sample_binding "group" AUTHZ_DENIED (-1) ] in
  let child := sample_conf (backend := unit)
                 [ sample_binding "valid-user" AUTHZ_GRANTED (-1) ] in
  providers (merge_per_dir_config authz_module parent child) = providers child
  /\ providers (merge_per_dir_config authz_module parent create_authz_dir_config)
     = providers parent.
Proof. split; reflexivity. Qed.

(** ** Where the code leaves the specification *)

(** C2: on the empty list of bindings, with the default provider registered
    and answering granted, [authorize_user] does not return OK: after the
    slot is set to the name of the default provider, the call reads
    [current_provider->method_mask] with [current_provider] being [NULL],
    and the run stops there without any provider having been called. *)
Theorem empty_list_with_granting_default_provider :
  authorize_user (backend := unit) "authz" "valid-user" "authz_provider_name"
    (registry_with "authz" "valid-user" (sample_provider AUTHZ_GRANTED))
    create_authz_dir_config (sample_world tt 0) []
  = Crash (apr_table_setn "authz_provider_name" "valid-user" (sample_world tt 0)) []
  /\ value_of
       (authorize_user (backend := unit) "authz" "valid-user" "authz_provider_name"
          (registry_with "authz" "valid-user" (sample_provider AUTHZ_GRANTED))
          create_authz_dir_config (sample_world tt 0) [])
     <> Some OK.
Proof.
  assert (E : authorize_user (backend := unit) "authz" "valid-user"
                "authz_provider_name"
                (registry_with "authz" "valid-user" (sample_provider AUTHZ_GRANTED))
                create_authz_dir_config (sample_world tt 0) []
              = Crash (apr_table_setn "authz_provider_name" "valid-user"
                         (sample_world tt 0)) []).
  { rewrite authorize_user_unfold, run_providers_empty by reflexivity.
    unfold ap_lookup_provider, registry_with.
    now rewrite lookup_singleton_eq. }
  split; [exact E|]. rewrite E. discriminate.
Qed.

(** C3: with the empty list of bindings and a default provider that can be
    called, the body of the loop reaches the call with no current binding:
    the list it reads the mask and the requirement from has no head, and
    the body ends in the read through [NULL]. *)
Theorem call_site_without_current_binding :
  head (providers (create_authz_dir_config (backend := unit))) = None
  /\ ap_lookup_provider
       (registry_with "authz" "valid-user" (sample_provider (backend := unit) AUTHZ_GRANTED))
       "authz" "valid-user" "0"
     = Some (sample_provider AUTHZ_GRANTED)
  /\ loop_body "authz" "valid-user" "authz_provider_name"
       (registry_with "authz" "valid-user" (sample_provider AUTHZ_GRANTED))
       create_authz_dir_config
       (providers (create_authz_dir_config (backend := unit)))
       (sample_world tt 0) []
     = Crash (apr_table_setn "authz_provider_name" "valid-user" (sample_world tt 0)) [].
Proof.
  assert (L : ap_lookup_provider
                (registry_with "authz" "valid-user"
                   (sample_provider (backend := unit) AUTHZ_GRANTED))
                "authz" "valid-user" "0"
              = Some (sample_provider AUTHZ_GRANTED)).
  { unfold ap_lookup_provider, registry_with. apply lookup_singleton_eq. }
  split; [reflexivity|]. split; [exact L|].
  unfold loop_body. cbn [providers create_authz_dir_config head].
  now rewrite L.
Qed.

(** The function [merge_authz_dir_config], which the module record does
    not install: called on a parent scope with the bindings of "user" and
    "group" and a child scope with the binding of "valid-user", it gives
    the two bindings of the parent, not the binding of the child; this is
    so whether or not the child has an [ap_requires] array, which the
    function does take from the child. *)
Theorem merge_keeps_the_parent_bindings :
  let parent := sample_conf (backend := unit)
                  [ sample_binding "user" AUTHZ_DENIED (-1);
                    sample_binding "group" AUTHZ_DENIED (-1) ] in
  let child := sample_conf (backend := unit)
                 [ sample_binding "valid-user" AUTHZ_GRANTED (-1) ] in
  let child' := {| ap_requires := Some [ {| rl_method_mask := -1;
                                            rl_requirement := "valid-user" |} ];
                   providers := providers child |} in
  providers (merge_authz_dir_config parent child) = providers parent
  /\ providers (merge_authz_dir_config parent child) <> providers child
  /\ providers (merge_authz_dir_config parent child') = providers parent
  /\ ap_requires (merge_authz_dir_config parent child') = ap_requires child'
  /\ merge_dir_config (authz_module (backend := unit)) = None.
Proof.
  cbn zeta. rewrite !merge_keeps_base_providers.
  split; [reflexivity|]. split; [discriminate|].
  split; [reflexivity|]. split; reflexivity.
Qed.

(** C8: the handler does not split its argument.  For the line
    "valid-user" the binding built has the whole line as its requirement,
    where the remainder after the first token is empty; for the line
    "user alice", with a provider registered under the first token "user",
    the whole line is looked up as the name and the bind fails with the
    unknown-provider message. *)
Theorem require_argument_is_not_split :
  add_authz_provider (backend := unit) "authz"
    (registry_with "authz" "valid-user" (sample_provider AUTHZ_GRANTED))
    {| limited := -1 |} create_authz_dir_config "valid-user"
  = (None,
     {| ap_requires := None;
        providers := [ {| provider_name := "valid-user";
                          provider := sample_provider AUTHZ_GRANTED;
                          method_mask := -1;
                          requirement := "valid-user" |} ] |})
  /\ spec_first_token "valid-user" = "valid-user"%string
  /\ spec_remainder "valid-user" = ""%string
  /\ add_authz_provider (backend := unit) "authz"
       (registry_with "authz" "user" (sample_provider AUTHZ_GRANTED))
       {| limited := -1 |} create_authz_dir_config "user alice"
     = (Some (unknown_provider_msg "user alice"), create_authz_dir_config)
  /\ spec_first_token "user alice" = "user"%string
  /\ spec_remainder "user alice" = "alice"%string.
Proof.
  split.
  { rewrite (add_authz_provider_bound "authz" _ _ _ "valid-user"
               (sample_provider AUTHZ_GRANTED) (sample_check AUTHZ_GRANTED)).
    - reflexivity.
    - unfold ap_lookup_provider, registry_with. apply lookup_singleton_eq.
    - reflexivity. }
  split; [reflexivity|]. split; [reflexivity|].
  split; [|split; reflexivity].
  unfold add_authz_provider, ap_lookup_provider, registry_with.
  rewrite lookup_singleton_ne; [reflexivity|].
  intros H. discriminate H.
Qed.

(** * Loaded scopes at concrete inputs *)


(** The same scope merged into a fresh parent. *)
Lemma built_has_no_ap_requires_witness :
  built "authz" (sample_registry (backend := unit) "authz")
    (merge_authz_dir_config create_authz_dir_config
       (add_authz_provider "authz" (sample_registry "authz") sample_cmd
          create_authz_dir_config "valid-user").2)
  /\ authz_ap_requires
       (merge_authz_dir_config create_authz_dir_config
          (add_authz_provider (backend := unit) "authz" (sample_registry "authz")
             sample_cmd create_authz_dir_config "valid-user").2)
     = None.
Proof.
  assert (B : built "authz" (sample_registry (backend := unit) "authz")
                (merge_authz_dir_config create_authz_dir_config
                   (add_authz_provider "authz" (sample_registry "authz") sample_cmd
                      create_authz_dir_config "valid-user").2)).
  { apply built_merge; [apply built_create|].
    apply built_add; [unfold is_int64; cbn; lia|apply built_create]. }
  split; [exact B|].
  exact (built_has_no_ap_requires "authz" (sample_registry "authz") _ B).
Defined.

(** The scope of the lines "user" and "valid-user", asked with an empty
    registry. *)
Lemma built_scope_is_answered_witness :
  built "authz" (sample_registry (backend := unit) "authz")
    (add_authz_provider "authz" (sample_registry "authz") sample_cmd
       (add_authz_provider "authz" (sample_registry "authz") sample_cmd
          create_authz_dir_config "user").2 "valid-user").2
  /\ providers
       (add_authz_provider (backend := unit) "authz" (sample_registry "authz")
          sample_cmd
          (add_authz_provider "authz" (sample_registry "authz") sample_cmd
             create_authz_dir_config "user").2 "valid-user").2 <> []
  /\ exists code w' invs,
       authorize_user "authz" "valid-user" "authz_provider_name" ∅
         (add_authz_provider "authz" (sample_registry "authz") sample_cmd
            (add_authz_provider "authz" (sample_registry "authz") sample_cmd
               create_authz_dir_config "user").2 "valid-user").2
         (sample_world tt 0) []
       = Done code w' ([] ++ invs)
       /\ invs <> []
       /\ threaded "authz_provider_name" (sample_world tt 0)
            (providers
               (add_authz_provider "authz" (sample_registry "authz") sample_cmd
                  (add_authz_provider "authz" (sample_registry "authz")
                     sample_cmd create_authz_dir_config "user").2
                  "valid-user").2)
            invs
       /\ (code = OK \/ code = HTTP_UNAUTHORIZED
           \/ code = HTTP_INTERNAL_SERVER_ERROR).
Proof.
  assert (B : built "authz" (sample_registry (backend := unit) "authz")
                (add_authz_provider "authz" (sample_registry "authz") sample_cmd
                   (add_authz_provider "authz" (sample_registry "authz") sample_cmd
                      create_authz_dir_config "user").2 "valid-user").2).
  { apply built_add; [unfold is_int64; cbn; lia|].
    apply built_add; [unfold is_int64; cbn; lia|apply built_create]. }
  split; [exact B|]. split; [vm_compute; discriminate|].
  apply (built_scope_is_answered "authz" "valid-user" "authz_provider_name"
           (sample_registry "authz") ∅ _ (sample_world tt 0) [] B).
  vm_compute. discriminate.
Defined.

(** * Runs at concrete inputs *)

(** Denied by "user", then granted by "valid-user". *)
Lemma ok_needs_a_granting_provider_witness :
  authorize_user (backend := unit) "authz" "valid-user" "authz_provider_name" ∅
    (sample_conf [ sample_binding "user" AUTHZ_DENIED (-1);
                   sample_binding "valid-user" AUTHZ_GRANTED (-1) ])
    (sample_world tt 0) []
  = Done OK
      (state_of
         (authorize_user "authz" "valid-user" "authz_provider_name" ∅
            (sample_conf [ sample_binding "user" AUTHZ_DENIED (-1);
                           sample_binding "valid-user" AUTHZ_GRANTED (-1) ])
            (sample_world tt 0) []))
      (calls_of
         (authorize_user "authz" "valid-user" "authz_provider_name" ∅
            (sample_conf [ sample_binding "user" AUTHZ_DENIED (-1);
                           sample_binding "valid-user" AUTHZ_GRANTED (-1) ])
            (sample_world tt 0) []))
  /\ exists front lst,
       calls_of
         (authorize_user (backend := unit) "authz" "valid-user"
            "authz_provider_name" ∅
            (sample_conf [ sample_binding "user" AUTHZ_DENIED (-1);
                           sample_binding "valid-user" AUTHZ_GRANTED (-1) ])
            (sample_world tt 0) [])
       = [] ++ front ++ [lst]
       /\ threaded "authz_provider_name" (sample_world tt 0)
            (providers
               (sample_conf [ sample_binding "user" AUTHZ_DENIED (-1);
                              sample_binding "valid-user" AUTHZ_GRANTED (-1) ]))
            (front ++ [lst])
       /\ Forall denied front
       /\ inv_verdict lst = AUTHZ_GRANTED
       /\ exists b check w0,
            b ∈ providers
                  (sample_conf (backend := unit)
                     [ sample_binding "user" AUTHZ_DENIED (-1);
                       sample_binding "valid-user" AUTHZ_GRANTED (-1) ])
            /\ check_authorization (provider b) = Some check
            /\ (check (apr_table_setn "authz_provider_name" (provider_name b) w0)
                      (method_mask b) (requirement b)).1 = AUTHZ_GRANTED.
Proof.
  split; [reflexivity|].
  match goal with
  | |- context [calls_of ?run] =>
      exact (ok_needs_a_granting_provider "authz" "valid-user"
               "authz_provider_name" ∅
               (sample_conf [ sample_binding "user" AUTHZ_DENIED (-1);
                              sample_binding "valid-user" AUTHZ_GRANTED (-1) ])
               (sample_world tt 0) (state_of run) [] (calls_of run) eq_refl)
  end.
Defined.

(** A request that arrives with a stale note, on three denying bindings. *)
Lemma note_does_not_outlive_the_run_witness :
  authorize_user (backend := unit) "authz" "valid-user" "authz_provider_name" ∅
    (sample_conf all_denied)
    (apr_table_setn "authz_provider_name" "stale" (sample_world tt 0)) []
  = Done HTTP_UNAUTHORIZED
      (state_of
         (authorize_user "authz" "valid-user" "authz_provider_name" ∅
            (sample_conf all_denied)
            (apr_table_setn "authz_provider_name" "stale" (sample_world tt 0)) []))
      (calls_of
         (authorize_user "authz" "valid-user" "authz_provider_name" ∅
            (sample_conf all_denied)
            (apr_table_setn "authz_provider_name" "stale" (sample_world tt 0)) []))
  /\ slot "authz_provider_name"
       (state_of
          (authorize_user (backend := unit) "authz" "valid-user"
             "authz_provider_name" ∅ (sample_conf all_denied)
             (apr_table_setn "authz_provider_name" "stale" (sample_world tt 0)) []))
     = match providers (sample_conf (backend := unit) all_denied) with
       | [] => slot "authz_provider_name"
                 (apr_table_setn "authz_provider_name" "stale" (sample_world tt 0))
       | _ :: _ => None
       end.
Proof.
  split; [reflexivity|].
  match goal with
  | |- context [state_of ?run] =>
      exact (note_does_not_outlive_the_run "authz" "valid-user"
               "authz_provider_name" ∅ (sample_conf all_denied)
               (apr_table_setn "authz_provider_name" "stale" (sample_world tt 0))
               (state_of run) [] (calls_of run) HTTP_UNAUTHORIZED eq_refl)
  end.
Defined.

(** Three denying providers that only write to the log. *)
Lemma one_challenge_per_refusal_witness :
  Forall keeps_challenges (providers (sample_conf (backend := unit) all_denied))
  /\ authorize_user (backend := unit) "authz" "valid-user" "authz_provider_name" ∅
       (sample_conf all_denied) (sample_world tt 0) []
     = Done HTTP_UNAUTHORIZED
         (state_of
            (authorize_user "authz" "valid-user" "authz_provider_name" ∅
               (sample_conf all_denied) (sample_world tt 0) []))
         (calls_of
            (authorize_user "authz" "valid-user" "authz_provider_name" ∅
               (sample_conf all_denied) (sample_world tt 0) []))
  /\ challenges
       (state_of
          (authorize_user (backend := unit) "authz" "valid-user"
             "authz_provider_name" ∅ (sample_conf all_denied)
             (sample_world tt 0) []))
     = (challenges (sample_world tt 0)
        + if decide (HTTP_UNAUTHORIZED = HTTP_UNAUTHORIZED) then 1 else 0)%nat.
Proof.
  assert (K : Forall keeps_challenges
                (providers (sample_conf (backend := unit) all_denied))).
  { repeat constructor; intros check [= <-] w mask line; reflexivity. }
  split; [exact K|]. split; [reflexivity|].
  match goal with
  | |- context [state_of ?run] =>
      exact (one_challenge_per_refusal "authz" "valid-user"
               "authz_provider_name" ∅ (sample_conf all_denied)
               (sample_world tt 0) (state_of run) [] (calls_of run)
               HTTP_UNAUTHORIZED K eq_refl)
  end.
Defined.

(** The same scope asked with an empty and with the sample registry. *)
Lemma registry_is_not_read_for_bound_scopes_witness :
  providers (sample_conf (backend := unit) denied_error_granted) <> []
  /\ authorize_user "authz" "valid-user" "authz_provider_name" ∅
       (sample_conf denied_error_granted) (sample_world tt 0) []
     = authorize_user "authz" "valid-user" "authz_provider_name"
         (sample_registry "authz")
         (sample_conf denied_error_granted) (sample_world tt 0) [].
Proof.
  split; [discriminate|].
  apply (registry_is_not_read_for_bound_scopes "authz" "valid-user"
           "authz_provider_name" ∅ (sample_registry "authz")
           (sample_conf denied_error_granted) (sample_world tt 0) []).
  discriminate.
Defined.

(** * Several lines at concrete inputs *)

(** The lines "user", "valid-user", "user". *)
Lemma add_all_keeps_the_order_of_the_lines_witness :
  Forall (resolves "authz" (sample_registry (backend := unit) "authz"))
    ["user"%string; "valid-user"%string; "user"%string]
  /\ exists bs,
       add_all "authz" (sample_registry (backend := unit) "authz") sample_cmd
         create_authz_dir_config ["user"%string; "valid-user"%string; "user"%string]
       = (None,
          {| ap_requires := ap_requires (create_authz_dir_config (backend := unit));
             providers := providers create_authz_dir_config ++ bs |})
       /\ Forall2 (bound_from "authz" (sample_registry "authz") sample_cmd)
            ["user"%string; "valid-user"%string; "user"%string] bs.
Proof.
  assert (R : Forall (resolves "authz" (sample_registry (backend := unit) "authz"))
                ["user"%string; "valid-user"%string; "user"%string]).
  { repeat constructor; eexists; (split; [reflexivity|eexists; reflexivity]). }
  split; [exact R|].
  exact (add_all_keeps_the_order_of_the_lines "authz" (sample_registry "authz")
           sample_cmd create_authz_dir_config _ R).
Defined.

(** The lines "valid-user", "group admins", "user": no provider is
    registered as "group admins". *)
Lemma add_all_stops_at_the_first_fault_witness :
  Forall (resolves "authz" (sample_registry (backend := unit) "authz"))
    ["valid-user"%string]
  /\ ~ resolves "authz" (sample_registry (backend := unit) "authz") "group admins"
  /\ exists bs err,
       add_all "authz" (sample_registry (backend := unit) "authz") sample_cmd
         create_authz_dir_config
         (["valid-user"%string] ++ "group admins"%string :: ["user"%string])
       = (Some err,
          {| ap_requires := ap_requires (create_authz_dir_config (backend := unit));
             providers := providers create_authz_dir_config ++ bs |})
       /\ Forall2 (bound_from "authz" (sample_registry "authz") sample_cmd)
            ["valid-user"%string] bs
       /\ (err = unknown_provider_msg "group admins"
           \/ err = unsupported_provider_msg "group admins").
Proof.
  assert (R : Forall (resolves "authz" (sample_registry (backend := unit) "authz"))
                ["valid-user"%string]).
  { repeat constructor; eexists; (split; [reflexivity|eexists; reflexivity]). }
  assert (N : ~ resolves "authz" (sample_registry (backend := unit) "authz")
                "group admins").
  { intros (p & Hl & _). vm_compute in Hl. discriminate Hl. }
  split; [exact R|]. split; [exact N|].
  exact (add_all_stops_at_the_first_fault "authz" (sample_registry "authz")
           sample_cmd create_authz_dir_config _ _ _ R N).
Defined.

(** A binding limited to method 63, asked for method 63. *)
Lemma single_method_binding_applies_to_its_method_only_witness :
  0 <= 63 <= 63
  /\ 0 <= method_number (req (sample_world tt 63)) <= 63
  /\ method_mask (sample_binding (backend := unit) "user" AUTHZ_DENIED (- 2 ^ 63))
     = int64_shl AP_METHOD_BIT 63
  /\ (value_of
        (authz_some_auth_required
           {| ap_requires := None;
              providers := [ sample_binding "user" AUTHZ_DENIED (- 2 ^ 63) ] |}
           (sample_world tt 63) []) = Some 1
      <-> method_number (req (sample_world tt 63)) = 63).
Proof.
  split; [lia|]. split; [cbn; lia|]. split; [reflexivity|].
  apply (single_method_binding_applies_to_its_method_only
           (sample_binding "user" AUTHZ_DENIED (- 2 ^ 63)) 63
           (sample_world tt 63) []).
  - lia.
  - cbn. lia.
  - reflexivity.
Defined.

(** The masks 1 and 4, then a line restricted to method 1 (mask 2), asked
    for method 1. *)
Lemma binding_extends_the_applicability_witness :
  resolves "authz" (sample_registry (backend := unit) "authz") "user"
  /\ 0 <= method_number (req (sample_world tt 1)) <= 63
  /\ is_int64 (limited {| limited := 2 |})
  /\ Forall (fun b : authz_provider_list (backend := unit) =>
               is_int64 (method_mask b))
            (providers (sample_conf limited_bindings))
  /\ (value_of
        (authz_some_auth_required
           (add_authz_provider "authz" (sample_registry "authz")
              {| limited := 2 |} (sample_conf limited_bindings) "user").2
           (sample_world tt 1) []) = Some 1
      <-> value_of
            (authz_some_auth_required (sample_conf limited_bindings)
               (sample_world tt 1) []) = Some 1
          \/ mask_includes (limited {| limited := 2 |})
               (method_number (req (sample_world tt 1)))).
Proof.
  assert (R : resolves "authz" (sample_registry (backend := unit) "authz") "user").
  { eexists; (split; [reflexivity|eexists; reflexivity]). }
  assert (M : Forall (fun b : authz_provider_list (backend := unit) =>
                        is_int64 (method_mask b))
                     (providers (sample_conf limited_bindings))).
  { repeat constructor; unfold is_int64; cbn; lia. }
  split; [exact R|]. split; [cbn; lia|].
  split; [unfold is_int64; cbn; lia|]. split; [exact M|].
  apply (binding_extends_the_applicability "authz" (sample_registry "authz")
           {| limited := 2 |} (sample_conf limited_bindings) "user"
           (sample_world tt 1) [] R).
  - cbn. lia.
  - unfold is_int64; cbn; lia.
  - exact M.
Defined.
